(** * convert_to_webdataset.py: sharding a dataset into tar archives

    A shallow embedding of [save_shard], [process_single_shard] and
    [create_webdataset], and the properties of the shard planner, the
    sample validator and the shard serializer proved on it. *)

From Stdlib Require Import ZArith NArith Ascii String DecimalString DecimalN
  DecimalPos DecimalFacts SpecFloat Sorted.
From stdpp Require Import gmap strings list fin_maps sorting.

Open Scope Z_scope.

(** ** Python built-ins used by the script *)

Module Py.

(** [range(n)]: empty when [n <= 0]. *)
Definition range (n : Z) : list Z :=
  Z.of_nat <$> seq 0 (Z.to_nat n).

(** [range(start, stop)]: empty when [stop <= start]. *)
Definition range2 (start stop : Z) : list Z :=
  (λ i, start + Z.of_nat i) <$> seq 0 (Z.to_nat (stop - start)).

(** [a // b] on integers: rounds towards minus infinity, and raises
    [ZeroDivisionError] ([None]) when [b] is zero. *)
Definition floordiv (a b : Z) : option Z :=
  if b =? 0 then None else Some (a `div` b).

(** ["0" * k] *)
Fixpoint zeros (k : nat) : string :=
  match k with
  | O => ""
  | S k => String "0" (zeros k)
  end.

(** [str(n)] for [n >= 0]. *)
Definition digits (n : N) : string :=
  NilZero.string_of_uint (N.to_uint n).

(** The format spec [{n:0<width>d}]: decimal digits, padded with zeros
    on the left up to [width] characters, the sign of a negative number
    counted in the width and written before the zeros.  Longer numbers
    are written in full. *)
Definition format_0d (width : nat) (n : Z) : string :=
  let ds := digits (Z.abs_N n) in
  if n <? 0
  then String "-" (zeros (width - 1 - String.length ds) +:+ ds)
  else zeros (width - String.length ds) +:+ ds.

(** [int(s)] on a string of decimal digits, leading zeros allowed. *)
Definition read_digits (s : string) : option N :=
  N.of_uint <$> NilEmpty.uint_of_string s.

Fixpoint ends_with_sep (s : string) : bool :=
  match s with
  | "" => false
  | String c "" => Ascii.eqb c "/"
  | String _ s => ends_with_sep s
  end.

Definition starts_with_sep (s : string) : bool :=
  match s with
  | String c _ => Ascii.eqb c "/"
  | "" => false
  end.

(** [os.path.join(a, b)] (posixpath): an absolute [b] discards [a]; a
    separator is added unless [a] is empty or already ends with one. *)
Definition path_join (a b : string) : string :=
  if starts_with_sep b then b
  else if (String.eqb a "" || ends_with_sep a)%bool then a +:+ b
  else a +:+ "/" +:+ b.

End Py.

(** ** numpy arrays and the [.npz] container *)

Module Np.

(** An array element: a float of any width, or an integer (the dtype of
    token labels). *)
Inductive scalar : Type :=
| Float (f : spec_float)
| Int (z : Z).

Record ndarray : Type := mk_ndarray {
  shape : list nat;
  data : list scalar        (* the elements, flattened *)
}.

(** [np.isnan], [np.isinf]: element-wise, same shape as the input. *)
Definition isnan_scalar (x : scalar) : bool :=
  match x with
  | Float S754_nan => true
  | _ => false
  end.

Definition isinf_scalar (x : scalar) : bool :=
  match x with
  | Float (S754_infinity _) => true
  | _ => false
  end.

Definition isnan (a : ndarray) : list bool := isnan_scalar <$> data a.
Definition isinf (a : ndarray) : list bool := isinf_scalar <$> data a.

(** [mask.any()] *)
Definition any (mask : list bool) : bool := existsb id mask.

(** [np.isfinite] on one element, the notion the specification words its
    verdict with. *)
Definition isfinite_scalar (x : scalar) : bool :=
  match x with
  | Float S754_nan | Float (S754_infinity _) => false
  | _ => true
  end.

(** [np.savez_compressed(buffer, name=array)] and [np.load] are numpy's.
    The script never looks inside the bytes it gets back, so the
    container is kept abstract: [npz] is the type of [buffer.getvalue()]. *)
Class Codec : Type := {
  npz : Type;
  savez_compressed : list (string * ndarray) → npz;
  load : npz → option (list (string * ndarray))
}.

(** A container that keeps the named arrays as they are; it serves to run
    the script on examples. *)
Definition stored : Codec :=
  {| npz := list (string * ndarray);
     savez_compressed := λ kw, kw;
     load := Some |}.

End Np.

Import Np.

(** ** Samples, records, and the world the script acts on *)

(** A row of the dataset: [sample["input_features"]], [sample["labels"]]. *)
Record sample : Type := mk_sample {
  input_features : ndarray;
  labels : ndarray
}.

Section Program.

Context {C : Codec}.

(** The dict handed to [sink.write]: its ["__key__"] and the other
    entries in the order they are written. *)
Record tar_record : Type := mk_record {
  key : string;
  members : list (string * npz)
}.

(** What the script does to the outside, in program order. *)
Inductive action : Type :=
| Open (path : string)                      (* wds.TarWriter(path) *)
| Write (path : string) (r : tar_record)    (* sink.write(...) *)
| Close (path : string)                     (* leaving the with block *)
| Print (line : string).

(** The output directory (archive path to records) and standard output. *)
Record world : Type := mk_world {
  files : gmap string (list tar_record);
  stdout : list string
}.

(** [TarWriter] opens its path with mode ["wb"]: the file is created, or
    emptied when it exists.  A write appends one record to the stream. *)
Definition step (a : action) (w : world) : world :=
  match a with
  | Open p => mk_world (<[p := []]> (files w)) (stdout w)
  | Write p r => mk_world (alter (λ rs, rs ++ [r]) p (files w)) (stdout w)
  | Close _ => w
  | Print l => mk_world (files w) (stdout w ++ [l])
  end.

Definition exec (tr : list action) (w : world) : world :=
  foldl (λ w a, step a w) w tr.

(** ** [save_shard] *)

Definition sample_key (sample_idx : nat) : string :=
  "sample" +:+ Py.format_0d 6 (Z.of_nat sample_idx).

Definition shard_name (shard_idx : Z) : string :=
  "shard-" +:+ Py.format_0d 5 shard_idx +:+ ".tar".

Definition shard_path (output_dir : string) (shard_idx : Z) : string :=
  Py.path_join output_dir (shard_name shard_idx).

(** The condition of the [if] in the loop body. *)
Definition has_nan_or_inf (s : sample) : bool :=
  any (isnan (input_features s)) || any (isinf (input_features s)).

Definition skip_message (sample_key : string) : string :=
  "Skipping sample " +:+ sample_key +:+ " due to NaN or Inf in input_features.".

Definition record_of (sample_key : string) (s : sample) : tar_record :=
  {| key := sample_key;
     members :=
       [ ("input.npz", savez_compressed [("input_features", input_features s)]);
         ("labels.npz", savez_compressed [("labels", labels s)]) ] |}.

(** The [for sample_idx, sample in enumerate(shard_samples)] loop, the
    counter of [enumerate] carried along. *)
Fixpoint save_shard_loop (path : string) (sample_idx : nat)
    (shard_samples : list sample) : list action :=
  match shard_samples with
  | [] => []
  | sample :: rest =>
      let sample_key := sample_key sample_idx in
      if has_nan_or_inf sample
      then Print (skip_message sample_key)
             :: save_shard_loop path (S sample_idx) rest
      else Write path (record_of sample_key sample)
             :: save_shard_loop path (S sample_idx) rest
  end.

Definition save_shard (output_dir : string) (shard_idx : Z)
    (shard_samples : list sample) : list action :=
  let shard_path := shard_path output_dir shard_idx in
  Open shard_path :: save_shard_loop shard_path 0 shard_samples
    ++ [Close shard_path].

(** ** [process_single_shard] *)

(** [dataset.select(indices)]: the rows at the given indices, in order;
    an index outside [0, len(dataset)) raises [IndexError]. *)
Definition select (dataset : list sample) (indices : list Z)
    : option (list sample) :=
  mapM (λ i, if (0 <=? i) && (i <? Z.of_nat (length dataset))
             then dataset !! Z.to_nat i else None) indices.

(** The tuple built for each shard. *)
Record task : Type := mk_task {
  t_dataset : list sample;
  t_shard_idx : Z;
  t_start_idx : Z;
  t_output_dir : string;
  t_shard_size : Z
}.

(** The indices handed to [select]. *)
Definition task_indices (t : task) : list Z :=
  let end_idx := t_start_idx t + t_shard_size t in
  Py.range2 (t_start_idx t)
    (Z.min (Z.of_nat (length (t_dataset t))) end_idx).

(** [None] stands for the [IndexError] of [select]. *)
Definition process_single_shard (t : task) : option (list action * Z) :=
  shard_samples ← select (t_dataset t) (task_indices t);
  Some (save_shard (t_output_dir t) (t_shard_idx t) shard_samples,
        t_shard_idx t).

(** ** [create_webdataset] *)

Definition total_shards (total_samples shard_size : Z) : option Z :=
  Py.floordiv (total_samples + shard_size - 1) shard_size.

(** The list comprehension; [None] is the [ZeroDivisionError] of a zero
    [shard_size]. *)
Definition shard_tasks (dataset : list sample) (output_dir : string)
    (shard_size shard_start_idx : Z) : option (list task) :=
  let total_samples := Z.of_nat (length dataset) in
  total_shards ← total_shards total_samples shard_size;
  Some ((λ i, mk_task dataset (shard_start_idx + i) (i * shard_size)
                output_dir shard_size)
          <$> Py.range total_shards).

Definition total_message (total_samples : Z) : string :=
  "Total samples in dataset: " +:+ Py.format_0d 0 total_samples.

(** The actions of the tasks, each task's kept in its own list. *)
Definition task_traces (ts : list task) : option (list (list action)) :=
  mapM (λ t, fst <$> process_single_shard t) ts.

(** A schedule of the pool: the tasks' action lists merged into one
    sequence that keeps the order inside each list. *)
Inductive interleaving : list (list action) → list action → Prop :=
| il_done trs :
    Forall (λ tr, tr = []) trs → interleaving trs []
| il_step trs1 a tr trs2 sched :
    interleaving (trs1 ++ tr :: trs2) sched →
    interleaving (trs1 ++ (a :: tr) :: trs2) (a :: sched).

(** The proper ancestors of a path: its prefixes that end just before a
    separator (["a/b/c"] has ["a"] and ["a/b"]).  [seen] is the part of the
    path already read. *)
Fixpoint ancestors_from (seen rest : string) : list string :=
  match rest with
  | "" => []
  | String c rest' =>
      (if Ascii.eqb c "/" && negb (String.eqb seen "") then [seen] else [])
      ++ ancestors_from (seen +:+ String c "") rest'
  end.

Definition ancestors (path : string) : list string := ancestors_from "" path.

(** [os.makedirs(path, exist_ok=True)].  It raises [FileNotFoundError] for
    the empty path, and [FileExistsError] or [NotADirectoryError] when the
    path or one of its ancestors is a file; a directory that is already
    there is accepted.  Directories are not kept in the world (an archive
    path stands for its directory), so a call that succeeds leaves the
    world as it is.  What else the operating system may refuse
    (permissions, a full disk) is outside the world, here as for the
    archives. *)
Definition makedirs (path : string) (w : world) : option world :=
  if String.eqb path "" then None
  else if existsb (λ p, bool_decide (is_Some (files w !! p)))
            (path :: ancestors path)
       then None
       else Some w.

(** One run of [create_webdataset] from world [w] under the schedule
    [sched] ([imap_unordered] fixes none); [w'] is the world once the
    pool is drained.  The output directory has been made, and [Pool]
    wants at least one process. *)
Definition create_webdataset_run (dataset : list sample)
    (output_dir : string) (shard_size : Z) (num_proc : Z)
    (shard_start_idx : Z) (sched : list action) (w w' : world) : Prop :=
  ∃ ts trs,
    makedirs output_dir w = Some w
    ∧ shard_tasks dataset output_dir shard_size shard_start_idx = Some ts
    ∧ 1 ≤ num_proc
    ∧ task_traces ts = Some trs
    ∧ interleaving trs sched
    ∧ w' = exec sched
             (step (Print (total_message (Z.of_nat (length dataset)))) w).

(** The run in which the tasks are served one after the other, in the
    order of the list; [None] when an exception ends the script. *)
Definition create_webdataset (dataset : list sample) (output_dir : string)
    (shard_size : Z) (num_proc : Z) (shard_start_idx : Z) (w : world)
    : option world :=
  w ← makedirs output_dir w;
  let w := step (Print (total_message (Z.of_nat (length dataset)))) w in
  ts ← shard_tasks dataset output_dir shard_size shard_start_idx;
  if num_proc <? 1 then None else
  trs ← task_traces ts;
  Some (exec (concat trs) w).

(** ** Observations on traces and worlds *)

(** The records a trace writes, and the archives it opens, in order. *)
Definition written (tr : list action) : list tar_record :=
  omap (λ a, match a with Write _ r => Some r | _ => None end) tr.

Definition opened (tr : list action) : list string :=
  omap (λ a, match a with Open p => Some p | _ => None end) tr.

Definition printed (tr : list action) : list string :=
  omap (λ a, match a with Print l => Some l | _ => None end) tr.



(** Does the action act on the archive at [p]? *)
Definition touches (p : string) (a : action) : bool :=
  match a with
  | Open q | Write q _ | Close q => bool_decide (q = p)
  | Print _ => false
  end.

(** What one action does to the contents of one archive. *)
Definition step_file (a : action) (f : option (list tar_record))
    : option (list tar_record) :=
  match a with
  | Open _ => Some []
  | Write _ r => (λ rs, rs ++ [r]) <$> f
  | _ => f
  end.

Definition exec_file (tr : list action) (f : option (list tar_record))
    : option (list tar_record) :=
  foldl (λ f a, step_file a f) f tr.

(** The part of a trace that acts on the archive at [p]. *)
Definition on_file (p : string) (tr : list action) : list action :=
  filter (λ a, touches p a = true) tr.

(** How many of the traces still have something to do. *)
Definition busy (trs : list (list action)) : nat :=
  length (filter (λ tr, (0 < length tr)%nat) trs).

(** ** The specification's vocabulary *)

(** ceil(n / s) for [s > 0]. *)
Definition ceil_div (n s : Z) : Z :=
  if n `mod` s =? 0 then n `div` s else n `div` s + 1.

(** The validator's verdict: every element of [input_features] is
    finite. *)
Definition valid (s : sample) : bool :=
  forallb isfinite_scalar (data (input_features s)).

(** [enumerate(shard_samples)]. *)
Definition enumerate (shard_samples : list sample) : list (nat * sample) :=
  imap (λ j s, (j, s)) shard_samples.

(** The positions of a slice that hold a valid sample, in increasing
    order, and the records expected for them. *)
Definition kept (shard_samples : list sample) : list (nat * sample) :=
  filter (λ js, valid js.2 = true) (enumerate shard_samples).

Definition shard_records (shard_samples : list sample) : list tar_record :=
  (λ js, record_of (sample_key js.1) js.2) <$> kept shard_samples.

(** The slice of the dataset a task stands for. *)
Definition slice (dataset : list sample) (start_offset count : Z)
    : list sample :=
  take (Z.to_nat count) (drop (Z.to_nat start_offset) dataset).

(** The number of samples, the samples and the archive of a task, and
    what serializing these samples does. *)
Definition task_count (t : task) : Z :=
  Z.min (t_shard_size t) (Z.of_nat (length (t_dataset t)) - t_start_idx t).

Definition task_samples (t : task) : list sample :=
  slice (t_dataset t) (t_start_idx t) (task_count t).

Definition task_path (t : task) : string :=
  shard_path (t_output_dir t) (t_shard_idx t).

Definition task_trace (t : task) : list action :=
  save_shard (t_output_dir t) (t_shard_idx t) (task_samples t).

(** The plan in the specification's words: ceil(N/S) tasks, the i-th
    with index [shard_start_idx + i] and start offset [i * S]. *)
Definition planned (dataset : list sample) (output_dir : string)
    (shard_size shard_start_idx : Z) : list task :=
  (λ i, mk_task dataset (shard_start_idx + i) (i * shard_size)
          output_dir shard_size)
    <$> Py.range (ceil_div (Z.of_nat (length dataset)) shard_size).

End Program.

Arguments task_trace {_} _ : simpl never.
Arguments task_path _ : simpl never.

(** ** A small dataset to run the script on *)

Definition arr (xs : list scalar) : ndarray := mk_ndarray [length xs] xs.

(** Finite features; the labels hold a NaN. *)
Definition good_sample : sample :=
  mk_sample (arr [Float (S754_finite false 1 0); Float (S754_zero false)])
            (arr [Float S754_nan; Int 7]).

Definition nan_sample : sample :=
  mk_sample (arr [Float S754_nan; Float (S754_finite false 1 (-3))])
            (arr [Int 1]).

Definition inf_sample : sample :=
  mk_sample (arr [Float (S754_infinity true)]) (arr [Int 2]).

Definition small_dataset : list sample :=
  [good_sample; nan_sample; good_sample; good_sample; inf_sample].

Definition empty_world : world (C := stored) := mk_world ∅ [].

(** Three shards of at most two samples, numbered from 3: the tasks served
    in order, and served last to first. *)
Definition small_traces : list (list (action (C := stored))) :=
  task_trace <$> planned small_dataset "out" 2 3.

Definition small_sched : list (action (C := stored)) := concat small_traces.

Definition small_sched_rev : list (action (C := stored)) :=
  concat (reverse small_traces).

(** The world a run over the five samples leaves. *)
Definition after (sched : list (action (C := stored)))
    (w : world (C := stored)) : world (C := stored) :=
  exec sched (step (Print (total_message 5)) w).

(** A run is checked by evaluating the plan and the traces, and by
    replaying the schedule action by action. *)
Ltac replay_schedule :=
  repeat first
    [ apply il_done; repeat constructor
    | apply (il_step [])
    | apply (il_step [_])
    | apply (il_step [_; _]) ].

Ltac run_by_evaluation :=
  eexists _, _; split_and!;
    [ reflexivity | reflexivity | lia | reflexivity
    | vm_compute; replay_schedule | reflexivity ].

(** * Facts about the built-ins *)

Section FormatFacts.

Import Py.

Lemma string_app_cons a (s t : string) :
  String a s +:+ t = String a (s +:+ t).
Proof. reflexivity. Qed.

Lemma string_app_nil_l (t : string) : "" +:+ t = t.
Proof. reflexivity. Qed.

Lemma length_zeros k : String.length (zeros k) = k.
Proof. induction k as [|k IH]; simpl; [done|by rewrite IH]. Qed.

Lemma string_length_app (s t : string) :
  String.length (s +:+ t) = (String.length s + String.length t)%nat.
Proof.
  induction s as [|a s IH]; [done|].
  rewrite string_app_cons. simpl. by rewrite IH.
Qed.

(** Cancelling a common suffix. *)
Lemma string_app_inv_r (s t u : string) : s +:+ u = t +:+ u → s = t.
Proof.
  revert t. induction s as [|a s IH]; intros [|b t] H.
  - done.
  - apply (f_equal String.length) in H.
    rewrite string_app_nil_l, string_app_cons in H. simpl in H.
    rewrite string_length_app in H. lia.
  - apply (f_equal String.length) in H.
    rewrite string_app_nil_l, string_app_cons in H. simpl in H.
    rewrite string_length_app in H. lia.
  - rewrite !string_app_cons in H. injection H as -> H.
    f_equal. by apply IH.
Qed.

Lemma to_uint_nonnil (n : N) : N.to_uint n ≠ Decimal.Nil.
Proof. destruct n; [done|]. apply Unsigned.to_uint_nonnil. Qed.

(** The padded digits are read back as the number padded with [D0]s. *)
Lemma zeros_digits k (n : N) :
  zeros k +:+ digits n
  = NilEmpty.string_of_uint (Nat.iter k Decimal.D0 (N.to_uint n)).
Proof.
  induction k as [|k IH]; simpl.
  - rewrite string_app_nil_l. unfold digits, NilZero.string_of_uint.
    pose proof (to_uint_nonnil n). by destruct (N.to_uint n).
  - by rewrite string_app_cons, IH.
Qed.

Lemma of_uint_iter_D0 k d :
  N.of_uint (Nat.iter k Decimal.D0 d) = N.of_uint d.
Proof. induction k; simpl; [done|]. by rewrite <- IHk. Qed.

Lemma read_zeros_digits k n : read_digits (zeros k +:+ digits n) = Some n.
Proof.
  unfold read_digits. rewrite zeros_digits, NilEmpty.usu. simpl.
  by rewrite of_uint_iter_D0, DecimalN.Unsigned.of_to.
Qed.

Lemma read_dash s : read_digits (String "-" s) = None.
Proof.
  unfold read_digits. simpl.
  by destruct (NilEmpty.uint_of_string s).
Qed.

Lemma format_0d_nonneg w n :
  0 ≤ n →
  format_0d w n
  = zeros (w - String.length (digits (Z.to_N n))) +:+ digits (Z.to_N n).
Proof.
  intros Hn. unfold format_0d.
  destruct (Z.ltb_spec n 0); [lia|].
  by replace (Z.abs_N n) with (Z.to_N n) by lia.
Qed.

(** [{:0wd}] never prints two numbers the same way. *)
Lemma format_0d_inj w n m : format_0d w n = format_0d w m → n = m.
Proof.
  unfold format_0d.
  destruct (Z.ltb_spec n 0) as [Hn|Hn], (Z.ltb_spec m 0) as [Hm|Hm];
    intros Heq.
  - injection Heq as Heq. apply (f_equal read_digits) in Heq.
    rewrite !read_zeros_digits in Heq. injection Heq as Heq. lia.
  - apply (f_equal read_digits) in Heq.
    by rewrite read_dash, read_zeros_digits in Heq.
  - apply (f_equal read_digits) in Heq.
    by rewrite read_dash, read_zeros_digits in Heq.
  - apply (f_equal read_digits) in Heq.
    rewrite !read_zeros_digits in Heq. injection Heq as Heq. lia.
Qed.

(** A number that fits is printed on exactly [w] characters. *)
Lemma format_0d_length w n :
  0 ≤ n →
  String.length (format_0d w n)
  = Nat.max w (String.length (digits (Z.to_N n))).
Proof.
  intros Hn. rewrite format_0d_nonneg by done.
  rewrite string_length_app, length_zeros. lia.
Qed.

Lemma path_join_inj_r a b1 b2 :
  starts_with_sep b1 = false → starts_with_sep b2 = false →
  path_join a b1 = path_join a b2 → b1 = b2.
Proof.
  unfold path_join. intros -> ->.
  destruct (String.eqb a "" || ends_with_sep a)%bool; intros H.
  - by apply String.app_inj in H.
  - by do 2 apply String.app_inj in H.
Qed.

End FormatFacts.

Section NameFacts.

Context {C : Codec}.

Lemma sample_key_inj j j' : sample_key j = sample_key j' → j = j'.
Proof.
  unfold sample_key. intros H.
  apply String.app_inj, format_0d_inj in H. lia.
Qed.

Lemma shard_name_inj i i' : shard_name i = shard_name i' → i = i'.
Proof.
  unfold shard_name. intros H.
  apply String.app_inj, string_app_inv_r in H.
  by apply format_0d_inj in H.
Qed.

Lemma shard_path_inj out i i' : shard_path out i = shard_path out i' → i = i'.
Proof.
  unfold shard_path. intros H.
  apply path_join_inj_r in H; [by apply shard_name_inj|done..].
Qed.

End NameFacts.

(** * The planner *)

Section PlannerFacts.

Context {C : Codec}.

Lemma ceil_div_bounds n s :
  0 < s → (ceil_div n s - 1) * s < n ≤ ceil_div n s * s.
Proof.
  intros Hs. unfold ceil_div.
  pose proof (Z.div_mod n s ltac:(lia)) as Hdm.
  pose proof (Z.mod_pos_bound n s Hs) as Hm.
  destruct (Z.eqb_spec (n `mod` s) 0); nia.
Qed.

(** The rounding-up idiom [(n + s - 1) // s] is the ceiling. *)
Lemma total_shards_ceil n s :
  0 < s → total_shards n s = Some (ceil_div n s).
Proof.
  intros Hs. unfold total_shards, Py.floordiv.
  destruct (Z.eqb_spec s 0); [lia|]. f_equal.
  pose proof (ceil_div_bounds n s Hs).
  symmetry. apply (Z.div_unique_pos _ _ _ (n + s - 1 - ceil_div n s * s)); lia.
Qed.

Lemma ceil_div_nonneg n s : 0 < s → 0 ≤ n → 0 ≤ ceil_div n s.
Proof. intros Hs Hn. pose proof (ceil_div_bounds n s Hs). nia. Qed.

Lemma length_range n : length (Py.range n) = Z.to_nat n.
Proof. unfold Py.range. by rewrite length_fmap, length_seq. Qed.

Lemma length_range2 a b : length (Py.range2 a b) = Z.to_nat (b - a).
Proof. unfold Py.range2. by rewrite length_fmap, length_seq. Qed.

Lemma lookup_range n (i : nat) :
  Py.range n !! i = if decide (i < Z.to_nat n)%nat then Some (Z.of_nat i) else None.
Proof.
  unfold Py.range. rewrite list_lookup_fmap.
  case_decide.
  - by rewrite lookup_seq_lt.
  - by rewrite lookup_seq_ge by lia.
Qed.

Lemma lookup_range2 a b (i : nat) :
  Py.range2 a b !! i
  = if decide (i < Z.to_nat (b - a))%nat then Some (a + Z.of_nat i) else None.
Proof.
  unfold Py.range2. rewrite list_lookup_fmap.
  case_decide.
  - by rewrite lookup_seq_lt.
  - by rewrite lookup_seq_ge by lia.
Qed.

Lemma elem_of_range2 a b i : i ∈ Py.range2 a b ↔ a ≤ i < b.
Proof.
  unfold Py.range2. rewrite list_elem_of_fmap. split.
  - intros (j & -> & Hj%elem_of_seq). lia.
  - intros Hi. exists (Z.to_nat (i - a)). split; [lia|].
    apply elem_of_seq. lia.
Qed.

(** Two adjacent ranges make one. *)
Lemma range_app a b : 0 ≤ a ≤ b → Py.range a ++ Py.range2 a b = Py.range b.
Proof.
  intros Hab. unfold Py.range, Py.range2.
  replace (Z.to_nat b) with (Z.to_nat a + Z.to_nat (b - a))%nat by lia.
  rewrite seq_app, fmap_app. f_equal. simpl.
  assert (seq (Z.to_nat a) (Z.to_nat (b - a))
          = Nat.add (Z.to_nat a) <$> seq 0 (Z.to_nat (b - a))) as ->.
  { rewrite fmap_add_seq. f_equal. lia. }
  rewrite <- list_fmap_compose.
  apply list_fmap_ext. intros _ j _. simpl. lia.
Qed.

Lemma NoDup_range n : NoDup (Py.range n).
Proof.
  unfold Py.range. apply NoDup_fmap_2; [|apply NoDup_seq].
  intros ???. lia.
Qed.

(** The index ranges of the first [j] planned tasks, put end to end. *)
Lemma planned_ranges_concat n s (j : nat) :
  0 < s → 0 ≤ n → (Z.of_nat j - 1) * s < n →
  concat ((λ i, Py.range2 (i * s) (Z.min n (i * s + s))) <$> Py.range (Z.of_nat j))
  = Py.range (Z.min n (Z.of_nat j * s)).
Proof.
  intros Hs Hn. induction j as [|j IH]; intros Hj.
  - simpl. by replace (Z.min n (Z.of_nat 0 * s)) with 0 by lia.
  - unfold Py.range in *. rewrite Nat2Z.id in *.
    rewrite seq_S, !fmap_app, concat_app. simpl.
    rewrite IH, app_nil_r by lia.
    replace (Z.min n (Z.of_nat j * s)) with (Z.of_nat j * s) by nia.
    replace (Z.of_nat (S j) * s) with (Z.of_nat j * s + s) by lia.
    apply (range_app (Z.of_nat j * s) (Z.min n (Z.of_nat j * s + s))). nia.
Qed.

(** [select] on a range inside the dataset is the slice. *)
Lemma select_range2 ds a b :
  0 ≤ a → b ≤ Z.of_nat (length ds) →
  select ds (Py.range2 a b) = Some (slice ds a (b - a)).
Proof.
  intros Ha Hb. unfold select, slice. apply mapM_Some.
  apply Forall2_same_length_lookup. split.
  - rewrite length_range2, length_take, length_drop. lia.
  - intros i x y. rewrite lookup_range2.
    case_decide; [|done]. intros [= <-].
    rewrite lookup_take_lt, lookup_drop by lia. intros Hy.
    apply lookup_lt_Some in Hy as Hlt.
    destruct (Z.leb_spec 0 (a + Z.of_nat i)); [|lia].
    destruct (Z.ltb_spec (a + Z.of_nat i) (Z.of_nat (length ds))); [|lia].
    simpl. rewrite <- Hy. f_equal. lia.
Qed.

End PlannerFacts.

(** * The serializer *)

Section SerializerFacts.

Context {C : Codec}.

(** The test of the loop is the negation of the validator's verdict. *)
Lemma has_nan_or_inf_valid s : has_nan_or_inf s = negb (valid s).
Proof.
  unfold has_nan_or_inf, valid, any, isnan, isinf.
  induction (data (input_features s)) as [|x xs IH]; [done|].
  csimpl in *. rewrite negb_andb, <- IH.
  destruct x as [[]|]; csimpl;
    by destruct (existsb id (isnan_scalar <$> xs)),
                (existsb id (isinf_scalar <$> xs)).
Qed.

Lemma valid_Forall s :
  valid s = true ↔ Forall (λ x, isfinite_scalar x = true) (data (input_features s)).
Proof.
  unfold valid. induction (data (input_features s)) as [|x xs IH]; simpl.
  - by rewrite Forall_nil.
  - rewrite Forall_cons, andb_true_iff. tauto.
Qed.

(** The loop started at counter [j0] writes the records of the valid
    samples under the keys of their positions counted from [j0]. *)
Lemma written_loop p j0 samples :
  written (save_shard_loop p j0 samples)
  = (λ js, record_of (sample_key js.1) js.2)
      <$> filter (λ js, valid js.2 = true)
            (imap (λ j s, ((j0 + j)%nat, s)) samples).
Proof.
  revert j0. induction samples as [|s samples IH]; intros j0; [done|].
  simpl. rewrite has_nan_or_inf_valid.
  assert (imap ((λ j s0, ((j0 + j)%nat, s0)) ∘ S) samples
          = imap (λ j s0, ((S j0 + j)%nat, s0)) samples) as ->.
  { apply imap_ext. intros j x _. simpl. f_equal. lia. }
  rewrite Nat.add_0_r.
  destruct (valid s) eqn:Hv; simpl; rewrite (IH (S j0)).
  - by rewrite filter_cons_True by done.
  - by rewrite filter_cons_False by (simpl; congruence).
Qed.

Lemma written_app tr1 tr2 : written (tr1 ++ tr2) = written tr1 ++ written tr2.
Proof. apply omap_app. Qed.

Lemma written_save_shard out idx samples :
  written (save_shard out idx samples) = shard_records samples.
Proof.
  unfold save_shard. simpl. rewrite written_app, written_loop. simpl.
  by rewrite app_nil_r.
Qed.

(** One diagnostic per invalid sample, and nothing else is printed. *)
Lemma printed_loop p j0 samples :
  printed (save_shard_loop p j0 samples)
  = (λ js, skip_message (sample_key js.1))
      <$> filter (λ js, valid js.2 = false)
            (imap (λ j s, ((j0 + j)%nat, s)) samples).
Proof.
  revert j0. induction samples as [|s samples IH]; intros j0; [done|].
  simpl. rewrite has_nan_or_inf_valid.
  assert (imap ((λ j s0, ((j0 + j)%nat, s0)) ∘ S) samples
          = imap (λ j s0, ((S j0 + j)%nat, s0)) samples) as ->.
  { apply imap_ext. intros j x _. simpl. f_equal. lia. }
  rewrite Nat.add_0_r.
  destruct (valid s) eqn:Hv; simpl; rewrite (IH (S j0)).
  - by rewrite filter_cons_False by (simpl; congruence).
  - by rewrite filter_cons_True by done.
Qed.

Lemma printed_save_shard out idx samples :
  printed (save_shard out idx samples)
  = (λ js, skip_message (sample_key js.1))
      <$> filter (λ js, valid js.2 = false) (enumerate samples).
Proof.
  unfold save_shard, printed. simpl. rewrite omap_app. simpl.
  rewrite app_nil_r. apply (printed_loop _ 0).
Qed.

(** Every sample of the slice is either written or reported. *)
Lemma written_printed_length out idx samples :
  (length (written (save_shard out idx samples))
   + length (printed (save_shard out idx samples)) = length samples)%nat.
Proof.
  rewrite written_save_shard, printed_save_shard.
  unfold shard_records, kept. rewrite !length_fmap.
  rewrite <- (length_imap (λ j s, (j, s)) samples). fold (enumerate samples).
  induction (enumerate samples) as [|[j s] l IH]; [done|].
  rewrite !filter_cons. simpl.
  destruct (valid s); repeat case_decide; simpl; try done; lia.
Qed.

Lemma opened_save_shard out idx samples :
  opened (save_shard out idx samples) = [shard_path out idx].
Proof.
  unfold save_shard, opened. simpl. rewrite omap_app. simpl.
  assert (∀ p j, omap (λ a, match a with Open q => Some q | _ => None end)
                   (save_shard_loop p j samples) = []) as ->; [|done].
  intros p. induction samples as [|s samples IH]; intros j; [done|].
  simpl. destruct (has_nan_or_inf s); simpl; apply IH.
Qed.

Lemma elem_of_enumerate samples j s :
  (j, s) ∈ enumerate samples ↔ samples !! j = Some s.
Proof.
  unfold enumerate. rewrite elem_of_lookup_imap. split.
  - by intros (i & x & [= -> ->] & Hx).
  - intros Hs. by exists j, s.
Qed.

Lemma elem_of_kept samples j s :
  (j, s) ∈ kept samples ↔ samples !! j = Some s ∧ valid s = true.
Proof.
  unfold kept. rewrite list_elem_of_filter, elem_of_enumerate. simpl. tauto.
Qed.

(** The positions kept by the loop started at [j0] increase strictly and
    start no earlier than [j0]. *)
Lemma kept_from_sorted (P : nat * sample → Prop) `{∀ x, Decision (P x)}
    j0 (samples : list sample) :
  StronglySorted lt (filter P (imap (λ j s, ((j0 + j)%nat, s)) samples)).*1
  ∧ Forall (λ j, (j0 ≤ j)%nat)
      (filter P (imap (λ j s, ((j0 + j)%nat, s)) samples)).*1.
Proof.
  revert j0. induction samples as [|s samples IH]; intros j0.
  - split; constructor.
  - rewrite imap_cons.
    assert (imap ((λ j s0, ((j0 + j)%nat, s0)) ∘ S) samples
            = imap (λ j s0, ((S j0 + j)%nat, s0)) samples) as ->.
    { apply imap_ext. intros j x _. simpl. f_equal. lia. }
    destruct (IH (S j0)) as [Hs Hge].
    assert (Forall (λ j, (j0 < j)%nat)
              (filter P (imap (λ j s0, ((S j0 + j)%nat, s0)) samples)).*1)
      as Hgt by (eapply Forall_impl; [exact Hge|simpl; lia]).
    rewrite filter_cons. case_decide; simpl; split; try done.
    + constructor; [done|]. by rewrite Nat.add_0_r.
    + constructor; [lia|]. eapply Forall_impl; [exact Hgt|simpl; lia].
    + eapply Forall_impl; [exact Hgt|simpl; lia].
Qed.

Lemma kept_sorted samples : StronglySorted lt (kept samples).*1.
Proof. apply (kept_from_sorted _ 0 samples). Qed.

Lemma key_shard_records samples :
  key <$> shard_records samples = sample_key <$> (kept samples).*1.
Proof. unfold shard_records. by rewrite <- !list_fmap_compose. Qed.

Lemma elem_of_shard_records r samples :
  r ∈ shard_records samples ↔
  ∃ j s, samples !! j = Some s ∧ valid s = true
         ∧ r = record_of (sample_key j) s.
Proof.
  unfold shard_records. rewrite list_elem_of_fmap. split.
  - intros ([j s] & -> & [Hs Hv]%elem_of_kept). by exists j, s.
  - intros (j & s & Hs & Hv & ->). exists (j, s). split; [done|].
    by apply elem_of_kept.
Qed.

(** The keys written depend on the [input_features] of the slice and on
    nothing else. *)
Lemma keys_loop_features p j0 samples samples' :
  input_features <$> samples' = input_features <$> samples →
  key <$> written (save_shard_loop p j0 samples')
  = key <$> written (save_shard_loop p j0 samples).
Proof.
  revert j0 samples'. induction samples as [|s samples IH];
    intros j0 [|s' samples'] Heq; try done.
  injection Heq as Hs Heq. simpl.
  assert (has_nan_or_inf s' = has_nan_or_inf s) as ->
    by (unfold has_nan_or_inf; by rewrite Hs).
  destruct (has_nan_or_inf s); simpl; [|f_equal]; by apply IH.
Qed.

End SerializerFacts.

(** * Traces, worlds and schedules *)

Section TraceFacts.

Context {C : Codec}.

Lemma exec_cons a tr w : exec (a :: tr) w = exec tr (step a w).
Proof. reflexivity. Qed.

Lemma exec_file_app tr1 tr2 f :
  exec_file (tr1 ++ tr2) f = exec_file tr2 (exec_file tr1 f).
Proof. apply foldl_app. Qed.

Lemma exec_file_cons a tr f :
  exec_file (a :: tr) f = exec_file tr (step_file a f).
Proof. reflexivity. Qed.

Lemma on_file_app p tr1 tr2 :
  on_file p (tr1 ++ tr2) = on_file p tr1 ++ on_file p tr2.
Proof. apply filter_app. Qed.

Lemma on_file_concat p trs :
  on_file p (concat trs) = concat (on_file p <$> trs).
Proof.
  induction trs as [|tr trs IH]; [done|].
  simpl. by rewrite on_file_app, IH.
Qed.

(** An action changes the archive it touches, and no other. *)
Lemma step_files_lookup a w p :
  files (step a w) !! p
  = if touches p a then step_file a (files w !! p) else files w !! p.
Proof.
  destruct a as [q|q r|q|l]; simpl; try case_bool_decide; subst; try done.
  - by rewrite lookup_insert_eq.
  - by rewrite lookup_insert_ne.
  - by rewrite lookup_alter_eq.
  - by rewrite lookup_alter_ne.
Qed.

(** The contents of an archive after a trace depend on the actions of
    the trace on that archive only. *)
Lemma exec_files_lookup tr w p :
  files (exec tr w) !! p = exec_file (on_file p tr) (files w !! p).
Proof.
  revert w. induction tr as [|a tr IH]; intros w; [done|].
  rewrite exec_cons, IH, step_files_lookup. unfold on_file.
  rewrite filter_cons. destruct (touches p a); by case_decide.
Qed.


(** ** Schedules *)

Lemma interleaving_cons_nil trs sched :
  interleaving trs sched → interleaving ([] :: trs) sched.
Proof.
  induction 1 as [trs Hnil|trs1 a tr trs2 sched _ IH].
  - apply il_done. by constructor.
  - apply (il_step ([] :: trs1)), IH.
Qed.

Lemma interleaving_cons_app tr trs sched :
  interleaving trs sched → interleaving (tr :: trs) (tr ++ sched).
Proof.
  intros H. induction tr as [|a tr IH]; simpl.
  - by apply interleaving_cons_nil.
  - by apply (il_step []).
Qed.

(** Serving the tasks one after the other is a schedule. *)
Lemma interleaving_concat trs : interleaving trs (concat trs).
Proof.
  induction trs as [|tr trs IH]; simpl.
  - by apply il_done.
  - by apply interleaving_cons_app.
Qed.

(** A schedule performs the actions of the tasks, each once. *)
Lemma interleaving_Permutation trs sched :
  interleaving trs sched → sched ≡ₚ concat trs.
Proof.
  induction 1 as [trs Hnil|trs1 a tr trs2 sched _ IH].
  - apply concat_nil_Forall in Hnil. by rewrite Hnil.
  - rewrite IH, !concat_app. simpl.
    by rewrite Permutation_middle.
Qed.

(** Restricting a schedule to some actions gives a schedule of the
    restricted tasks. *)
Lemma interleaving_filter (P : action → Prop) `{∀ a, Decision (P a)}
    trs sched :
  interleaving trs sched →
  interleaving (filter P <$> trs) (filter P sched).
Proof.
  induction 1 as [trs Hnil|trs1 a tr trs2 sched _ IH].
  - apply il_done. apply Forall_fmap.
    eapply Forall_impl; [exact Hnil|]. by intros ? ->.
  - rewrite fmap_app, fmap_cons in *. rewrite !filter_cons.
    destruct (decide (P a)); [|done]. by apply il_step.
Qed.

Lemma busy_app trs1 trs2 : busy (trs1 ++ trs2) = (busy trs1 + busy trs2)%nat.
Proof. unfold busy. by rewrite filter_app, length_app. Qed.

Lemma busy_cons tr trs :
  busy (tr :: trs) = ((if tr is [] then 0 else 1) + busy trs)%nat.
Proof.
  unfold busy. rewrite filter_cons.
  destruct tr; [done|].
  rewrite decide_True by (simpl; lia). done.
Qed.

Lemma busy_0_concat trs : busy trs = 0%nat → concat trs = [].
Proof.
  induction trs as [|tr trs IH]; [done|].
  rewrite busy_cons. destruct tr; [|lia]. simpl. apply IH.
Qed.

Lemma busy_0_Forall trs : Forall (λ tr, tr = []) trs → busy trs = 0%nat.
Proof.
  induction 1 as [|tr trs -> _ IH]; [done|]. by rewrite busy_cons, IH.
Qed.

(** When at most one task has anything to do there is one schedule. *)
Lemma interleaving_single trs sched :
  interleaving trs sched → (busy trs ≤ 1)%nat → sched = concat trs.
Proof.
  induction 1 as [trs Hnil|trs1 a tr trs2 sched _ IH]; intros Hb.
  - apply concat_nil_Forall in Hnil. by rewrite Hnil.
  - rewrite busy_app, busy_cons in Hb.
    rewrite IH.
    + rewrite !concat_app. simpl.
      rewrite (busy_0_concat trs1) by lia. done.
    + rewrite busy_app, busy_cons. destruct tr; lia.
Qed.

End TraceFacts.

(** * Runs of [create_webdataset] *)

Section RunFacts.

Context {C : Codec}.

Lemma shard_tasks_planned ds out s start :
  0 < s → shard_tasks ds out s start = Some (planned ds out s start).
Proof.
  intros Hs. unfold shard_tasks, planned.
  by rewrite total_shards_ceil.
Qed.

Lemma planned_lookup ds out s start (i : nat) t :
  planned ds out s start !! i = Some t ↔
  Z.of_nat i < ceil_div (Z.of_nat (length ds)) s
  ∧ t = mk_task ds (start + Z.of_nat i) (Z.of_nat i * s) out s.
Proof.
  unfold planned. rewrite list_lookup_fmap, lookup_range.
  case_decide; simpl; split; try (intros [??]; lia); try done.
  - intros [= <-]. split; [lia|done].
  - by intros [_ ->].
Qed.

Lemma elem_of_planned ds out s start t :
  t ∈ planned ds out s start ↔
  ∃ i, 0 ≤ i < ceil_div (Z.of_nat (length ds)) s
       ∧ t = mk_task ds (start + i) (i * s) out s.
Proof.
  rewrite list_elem_of_lookup. split.
  - intros [i Hi]. apply planned_lookup in Hi as [? ->].
    exists (Z.of_nat i). split; [lia|done].
  - intros (i & Hi & ->). exists (Z.to_nat i). apply planned_lookup.
    rewrite Z2Nat.id by lia. split; [lia|done].
Qed.

(** A task that starts inside the dataset gets its slice, and is
    serialized without an [IndexError]. *)
Lemma select_task t :
  0 ≤ t_start_idx t →
  select (t_dataset t) (task_indices t) = Some (task_samples t).
Proof.
  intros Ha. unfold task_indices, task_samples, task_count.
  rewrite select_range2 by lia. do 2 f_equal. lia.
Qed.

Lemma process_single_shard_ok t :
  0 ≤ t_start_idx t →
  process_single_shard t = Some (task_trace t, t_shard_idx t).
Proof.
  intros Ha. unfold process_single_shard. by rewrite select_task.
Qed.

Lemma task_traces_ok ts :
  Forall (λ t, 0 ≤ t_start_idx t) ts →
  task_traces ts = Some (task_trace <$> ts).
Proof.
  intros Hts. unfold task_traces. apply mapM_Some, Forall2_fmap_r.
  apply Forall_Forall2_diag. eapply Forall_impl; [exact Hts|].
  intros t Ht. simpl. by rewrite process_single_shard_ok.
Qed.

Lemma planned_start_nonneg ds out s start :
  0 < s → Forall (λ t, 0 ≤ t_start_idx t) (planned ds out s start).
Proof.
  intros Hs. apply Forall_forall. intros t (i & Hi & ->)%elem_of_planned.
  simpl. nia.
Qed.

Lemma task_path_planned ds out s start :
  task_path <$> planned ds out s start
  = (λ i, shard_path out (start + i))
      <$> Py.range (ceil_div (Z.of_nat (length ds)) s).
Proof. unfold planned. by rewrite <- list_fmap_compose. Qed.

(** No two planned tasks share an archive. *)
Lemma NoDup_task_path_planned ds out s start :
  NoDup (task_path <$> planned ds out s start).
Proof.
  rewrite task_path_planned. apply NoDup_fmap_2; [|apply NoDup_range].
  intros i j Hij%shard_path_inj. lia.
Qed.

(** ** What a task does to the archives *)

Lemma on_file_cons_touch p a tr :
  touches p a = true → on_file p (a :: tr) = a :: on_file p tr.
Proof. intros Ha. unfold on_file. by rewrite filter_cons_True. Qed.

Lemma on_file_cons_skip p a tr :
  touches p a = false → on_file p (a :: tr) = on_file p tr.
Proof.
  intros Ha. unfold on_file. rewrite filter_cons_False; [done|congruence].
Qed.

Lemma touches_same p a :
  (match a with Open q | Write q _ | Close q => q = p | Print _ => False end) →
  touches p a = true.
Proof. destruct a; simpl; try done; intros ->; by apply bool_decide_eq_true_2. Qed.

Lemma touches_other p a :
  (match a with Open q | Write q _ | Close q => q ≠ p | Print _ => True end) →
  touches p a = false.
Proof. destruct a; simpl; try done; intros ?; by apply bool_decide_eq_false_2. Qed.

Lemma on_file_loop_ne q p j samples :
  q ≠ p → on_file q (save_shard_loop p j samples) = [].
Proof.
  intros Hne. revert j. induction samples as [|s samples IH]; intros j; [done|].
  simpl. destruct (has_nan_or_inf s);
    rewrite on_file_cons_skip; auto using touches_other.
Qed.

Lemma on_file_save_shard_ne q out idx samples :
  q ≠ shard_path out idx → on_file q (save_shard out idx samples) = [].
Proof.
  intros Hne. unfold save_shard.
  rewrite on_file_cons_skip by auto using touches_other.
  rewrite on_file_app, on_file_loop_ne by done.
  by rewrite on_file_cons_skip by auto using touches_other.
Qed.

Lemma exec_file_loop p j samples rs :
  exec_file (on_file p (save_shard_loop p j samples)) (Some rs)
  = Some (rs ++ written (save_shard_loop p j samples)).
Proof.
  revert j rs. induction samples as [|s samples IH]; intros j rs.
  - simpl. by rewrite app_nil_r.
  - simpl. destruct (has_nan_or_inf s).
    + rewrite on_file_cons_skip by done. apply IH.
    + rewrite on_file_cons_touch by auto using touches_same.
      rewrite exec_file_cons. simpl. rewrite IH.
      by rewrite <- app_assoc.
Qed.

(** Whatever the archive held, after [save_shard] it holds the records
    of the valid samples of the slice. *)
Lemma exec_file_save_shard out idx samples f :
  exec_file (on_file (shard_path out idx) (save_shard out idx samples)) f
  = Some (shard_records samples).
Proof.
  rewrite <- (written_save_shard out idx). unfold save_shard.
  set (p := shard_path out idx).
  rewrite on_file_cons_touch by auto using touches_same.
  rewrite exec_file_cons, on_file_app, exec_file_app. simpl.
  rewrite exec_file_loop.
  rewrite on_file_cons_touch by auto using touches_same.
  simpl. by rewrite written_app, app_nil_r.
Qed.

End RunFacts.

Section ScheduleFacts.

Context {C : Codec}.

Lemma on_file_task_trace_ne q t :
  q ≠ task_path t → on_file q (task_trace t) = [].
Proof. intros Hne. by apply on_file_save_shard_ne. Qed.

Lemma on_file_traces_absent q ts :
  q ∉ task_path <$> ts → on_file q (concat (task_trace <$> ts)) = [].
Proof.
  induction ts as [|t ts IH]; [done|]. rewrite !fmap_cons, concat_cons.
  rewrite not_elem_of_cons. intros [Hne Hq].
  by rewrite on_file_app, on_file_task_trace_ne, IH.
Qed.

(** Among tasks with distinct archives, the actions on the archive of
    one task are the actions of that task. *)
Lemma on_file_traces_owner ts t :
  NoDup (task_path <$> ts) → t ∈ ts →
  on_file (task_path t) (concat (task_trace <$> ts))
  = on_file (task_path t) (task_trace t).
Proof.
  induction ts as [|t0 ts IH]; [by intros _ ?%elem_of_nil|].
  rewrite !fmap_cons, concat_cons, NoDup_cons. intros [Hfresh Hnd] [->|Hin]%elem_of_cons.
  - by rewrite on_file_app, on_file_traces_absent, app_nil_r.
  - rewrite on_file_app, IH by done.
    rewrite on_file_task_trace_ne; [done|].
    intros Heq. apply Hfresh. rewrite <- Heq.
    by apply list_elem_of_fmap_2.
Qed.

(** With distinct archives, at any archive at most one task is busy. *)
Lemma busy_on_file q ts :
  NoDup (task_path <$> ts) →
  (busy (on_file q <$> (task_trace <$> ts)) ≤ 1)%nat.
Proof.
  induction ts as [|t ts IH]; [by unfold busy; simpl; lia|].
  rewrite !fmap_cons, NoDup_cons. intros [Hfresh Hnd]. rewrite busy_cons.
  destruct (decide (q = task_path t)) as [->|Hne].
  - rewrite busy_0_Forall; [destruct (on_file _ _); lia|].
    rewrite <- list_fmap_compose. apply Forall_fmap, Forall_forall.
    intros t' Ht'. simpl. apply on_file_task_trace_ne.
    intros Heq. apply Hfresh. rewrite Heq. by apply list_elem_of_fmap_2.
  - rewrite on_file_task_trace_ne by done. by apply IH.
Qed.

(** The archives after any schedule are those of the schedule that
    serves the tasks in order. *)
Lemma schedule_on_file q ts sched :
  NoDup (task_path <$> ts) →
  interleaving (task_trace <$> ts) sched →
  on_file q sched = on_file q (concat (task_trace <$> ts)).
Proof.
  intros Hnd Hil. rewrite on_file_concat.
  apply interleaving_single; [|by apply busy_on_file].
  by apply (interleaving_filter (λ a, touches q a = true)).
Qed.

Lemma schedule_files ts sched w :
  NoDup (task_path <$> ts) →
  interleaving (task_trace <$> ts) sched →
  files (exec sched w) = files (exec (concat (task_trace <$> ts)) w).
Proof.
  intros Hnd Hil. apply map_eq. intros q.
  by rewrite !exec_files_lookup, (schedule_on_file q ts sched).
Qed.

Lemma schedule_files_owner ts sched w t :
  NoDup (task_path <$> ts) →
  interleaving (task_trace <$> ts) sched →
  t ∈ ts →
  files (exec sched w) !! task_path t = Some (shard_records (task_samples t)).
Proof.
  intros Hnd Hil Ht.
  rewrite exec_files_lookup, (schedule_on_file _ ts sched) by done.
  rewrite on_file_traces_owner by done.
  apply exec_file_save_shard.
Qed.

Lemma schedule_files_other ts sched w q :
  NoDup (task_path <$> ts) →
  interleaving (task_trace <$> ts) sched →
  q ∉ task_path <$> ts →
  files (exec sched w) !! q = files w !! q.
Proof.
  intros Hnd Hil Hq.
  rewrite exec_files_lookup, (schedule_on_file _ ts sched) by done.
  by rewrite on_file_traces_absent.
Qed.

(** ** The shape of a run *)

(** A run with a positive shard size serves the planned tasks. *)
Lemma run_inv ds out s np start sched w w' :
  0 < s →
  create_webdataset_run ds out s np start sched w w' →
  interleaving (task_trace <$> planned ds out s start) sched
  ∧ w' = exec sched
           (step (Print (total_message (Z.of_nat (length ds)))) w).
Proof.
  intros Hs (ts & trs & _ & Hts & _ & Htrs & Hil & ->).
  rewrite shard_tasks_planned in Hts by done. injection Hts as <-.
  rewrite task_traces_ok in Htrs by by apply planned_start_nonneg.
  injection Htrs as <-. done.
Qed.

(** Once the directory can be made, every positive shard size and pool
    size has a run, the in-order one. *)
Lemma run_exists ds out s np start w :
  0 < s → 1 ≤ np → makedirs out w = Some w →
  ∃ w', create_webdataset ds out s np start w = Some w'
        ∧ create_webdataset_run ds out s np start
            (concat (task_trace <$> planned ds out s start)) w w'.
Proof.
  intros Hs Hnp Hmk. unfold create_webdataset, create_webdataset_run.
  rewrite Hmk. simpl.
  rewrite shard_tasks_planned by done. simpl.
  destruct (Z.ltb_spec np 1); [lia|].
  rewrite task_traces_ok by by apply planned_start_nonneg. simpl.
  eexists. split; [done|].
  exists (planned ds out s start), (task_trace <$> planned ds out s start).
  split_and!; try done.
  - by apply task_traces_ok, planned_start_nonneg.
  - apply interleaving_concat.
Qed.

Lemma run_files_planned ds out s np start sched w w' i :
  0 < s →
  create_webdataset_run ds out s np start sched w w' →
  0 ≤ i < ceil_div (Z.of_nat (length ds)) s →
  files w' !! shard_path out (start + i)
  = Some (shard_records
            (slice ds (i * s) (Z.min s (Z.of_nat (length ds) - i * s)))).
Proof.
  intros Hs [Hil ->]%run_inv Hi; [|done].
  set (t := mk_task ds (start + i) (i * s) out s).
  change (shard_path out (start + i)) with (task_path t).
  change (slice ds _ _) with (task_samples t).
  apply (schedule_files_owner (planned ds out s start)); try done.
  - apply NoDup_task_path_planned.
  - apply elem_of_planned. by exists i.
Qed.

Lemma run_files_other ds out s np start sched w w' q :
  0 < s →
  create_webdataset_run ds out s np start sched w w' →
  (∀ i, 0 ≤ i < ceil_div (Z.of_nat (length ds)) s →
        q ≠ shard_path out (start + i)) →
  files w' !! q = files w !! q.
Proof.
  intros Hs [Hil ->]%run_inv Hq; [|done].
  rewrite (schedule_files_other (planned ds out s start)); try done.
  - apply NoDup_task_path_planned.
  - intros (t & -> & (i & Hi & ->)%elem_of_planned)%list_elem_of_fmap.
    by apply (Hq i).
Qed.

End ScheduleFacts.

(** * Counting files, records and diagnostics *)

Section CountFacts.

Context {C : Codec}.



Lemma opened_traces ts :
  opened (concat (task_trace <$> ts)) = task_path <$> ts.
Proof.
  induction ts as [|t ts IH]; [done|].
  rewrite !fmap_cons, concat_cons.
  assert (∀ tr1 tr2, opened (tr1 ++ tr2) = opened tr1 ++ opened tr2) as ->
    by (intros; apply omap_app).
  rewrite IH. unfold task_trace at 1.
  by rewrite (opened_save_shard (t_output_dir t) (t_shard_idx t)).
Qed.

(** The index ranges of the planned tasks, end to end, are
    [0, 1, ..., N-1]. *)
Lemma planned_indices_concat ds out s start :
  0 < s →
  concat (task_indices <$> planned ds out s start)
  = Py.range (Z.of_nat (length ds)).
Proof.
  intros Hs. set (n := Z.of_nat (length ds)).
  pose proof (ceil_div_bounds n s Hs) as Hc.
  pose proof (ceil_div_nonneg n s Hs ltac:(lia)) as Hc0.
  unfold planned. rewrite <- list_fmap_compose. fold n.
  rewrite <- (Z2Nat.id (ceil_div n s)) at 1 by done.
  erewrite list_fmap_ext; [rewrite (planned_ranges_concat n s)|]; try lia.
  - f_equal. lia.
  - intros _ i _. unfold task_indices. simpl. fold n. done.
Qed.





Lemma printed_app tr1 tr2 : printed (tr1 ++ tr2) = printed tr1 ++ printed tr2.
Proof. apply omap_app. Qed.




Lemma run_opened ds out s np start sched w w' :
  0 < s →
  create_webdataset_run ds out s np start sched w w' →
  opened sched
  ≡ₚ (λ i, shard_path out (start + i))
       <$> Py.range (ceil_div (Z.of_nat (length ds)) s).
Proof.
  intros Hs [Hil _]%run_inv; [|done].
  rewrite <- task_path_planned, <- opened_traces. unfold opened.
  by rewrite (interleaving_Permutation _ _ Hil).
Qed.

Lemma elem_of_shard_paths q out start k :
  q ∈ (λ i, shard_path out (start + i)) <$> Py.range k
  ↔ ∃ i, 0 ≤ i < k ∧ q = shard_path out (start + i).
Proof.
  rewrite list_elem_of_fmap. unfold Py.range. split.
  - intros (i & -> & (j & -> & Hj%elem_of_seq)%list_elem_of_fmap).
    exists (Z.of_nat j). split; [lia|done].
  - intros (i & Hi & ->). exists i. split; [done|].
    apply list_elem_of_fmap. exists (Z.to_nat i). split; [lia|].
    apply elem_of_seq. lia.
Qed.


(** A run with a positive shard size does not fail when its tasks are
    served in order. *)
Lemma run_in_order_total ds out s np start sched w w' :
  0 < s →
  create_webdataset_run ds out s np start sched w w' →
  is_Some (create_webdataset ds out s np start w).
Proof.
  intros Hs (ts & trs & Hmk & _ & Hnp & _).
  destruct (run_exists ds out s np start w Hs Hnp Hmk) as (w'' & -> & _).
  by eexists.
Qed.

End CountFacts.

(** * The scenarios of the specification *)

Example format_0d_examples :
  Py.format_0d 5 0 = "00000" ∧ Py.format_0d 5 12 = "00012"
  ∧ Py.format_0d 5 99999 = "99999" ∧ Py.format_0d 5 100000 = "100000"
  ∧ Py.format_0d 5 (-3) = "-0003" ∧ Py.format_0d 6 41 = "000041".
Proof. repeat split; reflexivity. Qed.

Example shard_path_examples :
  shard_path "./webdataset-hi" 0 = "./webdataset-hi/shard-00000.tar"
  ∧ shard_path "out/" 17 = "out/shard-00017.tar"
  ∧ sample_key 1 = "sample000001".
Proof. repeat split; reflexivity. Qed.

(** N = 2500, S = 1000, start index 0: three shards, named shard-00000 to
    shard-00002, of 1000, 1000 and 500 samples. *)
Example scenario_2500 :
  let ts := planned (replicate 2500 good_sample) "out" 1000 0 in
  total_shards 2500 1000 = Some 3
  ∧ task_path <$> ts
    = ["out/shard-00000.tar"; "out/shard-00001.tar"; "out/shard-00002.tar"]
  ∧ task_count <$> ts = [1000; 1000; 500].
Proof. vm_compute. repeat split; reflexivity. Qed.

(** N = 0: no task, and the run leaves the output directory as it was. *)
Example scenario_empty :
  shard_tasks [] "out" 1000 0 = Some []
  ∧ files <$> create_webdataset [] "out" 1000 8 0 empty_world = Some ∅.
Proof. split; reflexivity. Qed.

(** A slice with one NaN sample: one record fewer than samples, and a
    diagnostic naming the key of the skipped position. *)
Example scenario_nan :
  let tr := save_shard (C := stored) "out" 0 [good_sample; nan_sample; good_sample] in
  key <$> written tr = ["sample000000"; "sample000002"]
  ∧ printed tr
    = ["Skipping sample sample000001 due to NaN or Inf in input_features."].
Proof. split; reflexivity. Qed.

(** * The claims *)

Section Claims.

Context {C : Codec}.

(** C1: for a dataset of N samples and a shard size S > 0 (and any
    start index) the planner makes exactly ceil(N/S) tasks; task i has
    shard index shard_start_idx + i and selects the contiguous indices
    from i*S on, min(S, N - i*S) of them and at least one; put end to end
    the index ranges are 0, 1, ..., N-1, each index once; and with N = 0
    there is no task. *)
Theorem C1_planner_partitions ds out s start :
  0 < s →
  let n := Z.of_nat (length ds) in
  ∃ ts,
    shard_tasks ds out s start = Some ts
    ∧ Z.of_nat (length ts) = ceil_div n s
    ∧ (∀ (i : nat) t, ts !! i = Some t →
         t_shard_idx t = start + Z.of_nat i
         ∧ t_start_idx t = Z.of_nat i * s
         ∧ task_indices t
           = Py.range2 (Z.of_nat i * s)
               (Z.of_nat i * s + Z.min s (n - Z.of_nat i * s))
         ∧ Z.of_nat (length (task_indices t)) = Z.min s (n - Z.of_nat i * s)
         ∧ 0 < Z.min s (n - Z.of_nat i * s))
    ∧ concat (task_indices <$> ts) = Py.range n
    ∧ NoDup (concat (task_indices <$> ts))
    ∧ (n = 0 → ts = []).
Proof.
  intros Hs n. exists (planned ds out s start).
  pose proof (ceil_div_bounds n s Hs) as Hc.
  pose proof (ceil_div_nonneg n s Hs ltac:(lia)) as Hc0.
  pose proof (planned_indices_concat ds out s start Hs) as Hcat. fold n in Hcat.
  split_and!.
  - by apply shard_tasks_planned.
  - unfold planned. rewrite length_fmap, length_range. fold n. lia.
  - intros i t [Hi ->]%planned_lookup. fold n in Hi.
    assert (Z.of_nat i * s < n) by nia.
    unfold task_indices. simpl. fold n. split_and!; try done.
    + f_equal. lia.
    + rewrite length_range2. lia.
    + lia.
  - done.
  - rewrite Hcat. apply NoDup_range.
  - intros Hn. unfold planned. fold n. rewrite Hn.
    unfold ceil_div. by rewrite Zmod_0_l, Zdiv_0_l.
Qed.

(** C2: a record is written for the sample at position j of the slice
    exactly when every element of its input_features is finite; then it
    is the record made from that sample, whatever its labels hold; and
    the set of positions written is fixed by the input_features of the
    slice alone, the labels play no part. *)
Theorem C2_written_iff_all_finite out idx samples (j : nat) s :
  samples !! j = Some s →
  let tr := save_shard out idx samples in
  ((∃ r, r ∈ written tr ∧ key r = sample_key j)
   ↔ Forall (λ x, isfinite_scalar x = true) (data (input_features s)))
  ∧ (Forall (λ x, isfinite_scalar x = true) (data (input_features s))
     → record_of (sample_key j) s ∈ written tr)
  ∧ (Exists (λ x, isnan_scalar x = true ∨ isinf_scalar x = true)
       (data (input_features s))
     → ∀ r, r ∈ written tr → key r ≠ sample_key j)
  ∧ (∀ samples',
       input_features <$> samples' = input_features <$> samples →
       key <$> written (save_shard out idx samples') = key <$> written tr).
Proof.
  intros Hs tr. unfold tr. rewrite written_save_shard.
  assert ((∃ r, r ∈ shard_records samples ∧ key r = sample_key j)
          ↔ valid s = true) as Hiff.
  { split.
    - intros (r & (j' & s' & Hs' & Hv & ->)%elem_of_shard_records & Hk).
      simpl in Hk. apply sample_key_inj in Hk as ->. congruence.
    - intros Hv. exists (record_of (sample_key j) s). split; [|done].
      apply elem_of_shard_records. by exists j, s. }
  split_and!.
  - by rewrite Hiff, valid_Forall.
  - intros Hv%valid_Forall. apply elem_of_shard_records. by exists j, s.
  - intros Hex r Hr Hk.
    assert (valid s = true) as Hv%valid_Forall by (apply Hiff; eauto).
    apply Exists_exists in Hex as (x & Hx & Hbad).
    rewrite Forall_forall in Hv. specialize (Hv x Hx).
    destruct x as [[]|]; simpl in *; destruct Hbad; congruence.
  - intros samples' Heq. rewrite <- written_save_shard with (out := out) (idx := idx).
    unfold save_shard. simpl. rewrite !written_app, !fmap_app.
    f_equal. by apply keys_loop_features.
Qed.


(** C4: the records of a shard are those of the valid samples of the
    slice, each under the key sample{j:06d} of its position j in the slice;
    the positions written increase strictly, so a skipped position leaves
    a gap that later keys do not fill, and no key is written twice. *)
Theorem C4_keys_follow_positions out idx samples :
  let rs := written (save_shard out idx samples) in
  rs = (λ js, record_of ("sample" +:+ Py.format_0d 6 (Z.of_nat js.1)) js.2)
         <$> kept samples
  ∧ (∀ j s, (j, s) ∈ kept samples ↔ samples !! j = Some s ∧ valid s = true)
  ∧ key <$> rs = sample_key <$> (kept samples).*1
  ∧ StronglySorted lt (kept samples).*1
  ∧ NoDup (key <$> rs).
Proof.
  intros rs. unfold rs. rewrite written_save_shard. split_and!.
  - done.
  - apply elem_of_kept.
  - apply key_shard_records.
  - apply kept_sorted.
  - rewrite key_shard_records. apply NoDup_fmap_2.
    + intros ??. apply sample_key_inj.
    + pose proof (kept_sorted samples) as Hs.
      induction Hs as [|j js _ IH Hlt]; constructor; [|done].
      intros Hin. rewrite Forall_forall in Hlt. specialize (Hlt j Hin). lia.
Qed.

(** C5: the archive of a shard is named shard-{shard_index:05d}.tar in the
    output directory, a name fixed by the shard index alone and different
    for different indices; a run opens exactly the archives of the indices
    shard_start_idx + i for i in [0, total_shards), each once. *)
Theorem C5_shard_file_names ds out s np start sched w w' :
  0 < s →
  create_webdataset_run ds out s np start sched w w' →
  let k := ceil_div (Z.of_nat (length ds)) s in
  opened sched
  ≡ₚ (λ i, Py.path_join out ("shard-" +:+ Py.format_0d 5 (start + i) +:+ ".tar"))
       <$> Py.range k
  ∧ NoDup (opened sched)
  ∧ (∀ idx samples,
       opened (save_shard out idx samples)
       = [Py.path_join out ("shard-" +:+ Py.format_0d 5 idx +:+ ".tar")])
  ∧ (∀ idx idx', shard_name idx = shard_name idx' → idx = idx')
  ∧ (∀ idx idx', shard_path out idx = shard_path out idx' → idx = idx').
Proof.
  intros Hs Hrun k. pose proof (run_opened _ _ _ _ _ _ _ _ Hs Hrun) as Hop.
  split_and!.
  - exact Hop.
  - rewrite Hop, <- task_path_planned. apply NoDup_task_path_planned.
  - intros idx samples. apply opened_save_shard.
  - apply shard_name_inj.
  - apply shard_path_inj.
Qed.

(** C6: two runs over the same dataset with the same shard size and start
    index, under any two schedules, any pool sizes and from any two output
    directories' states, leave the same records in every planned archive:
    those of the valid samples of the task's slice, fixed by the dataset,
    the start offset and the count; started from the same files they leave
    the same files altogether. *)
Theorem C6_contents_independent_of_schedule
    ds out s np1 np2 start sched1 sched2 w1 w2 w1' w2' :
  0 < s →
  create_webdataset_run ds out s np1 start sched1 w1 w1' →
  create_webdataset_run ds out s np2 start sched2 w2 w2' →
  (∀ i, 0 ≤ i < ceil_div (Z.of_nat (length ds)) s →
        files w1' !! shard_path out (start + i)
        = Some (shard_records
                  (slice ds (i * s) (Z.min s (Z.of_nat (length ds) - i * s))))
        ∧ files w2' !! shard_path out (start + i)
          = files w1' !! shard_path out (start + i))
  ∧ (files w1 = files w2 → files w1' = files w2').
Proof.
  intros Hs Hrun1 Hrun2. split.
  - intros i Hi.
    rewrite (run_files_planned _ _ _ _ _ _ _ _ _ Hs Hrun1 Hi).
    by rewrite (run_files_planned _ _ _ _ _ _ _ _ _ Hs Hrun2 Hi).
  - intros Hw. apply run_inv in Hrun1 as [Hil1 ->]; [|done].
    apply run_inv in Hrun2 as [Hil2 ->]; [|done].
    rewrite (schedule_files _ _ _ (NoDup_task_path_planned ds out s start) Hil1).
    rewrite (schedule_files _ _ _ (NoDup_task_path_planned ds out s start) Hil2).
    apply map_eq. intros q. rewrite !exec_files_lookup. simpl. by rewrite Hw.
Qed.

(** C8: [save_shard] opens its archive before it looks at any sample, so
    after a run the archive of a planned task whose samples are all
    invalid is there, and holds no record. *)
Theorem C8_all_skipped_shard_exists ds out s np start sched w w' i :
  0 < s →
  create_webdataset_run ds out s np start sched w w' →
  0 ≤ i < ceil_div (Z.of_nat (length ds)) s →
  Forall (λ x, valid x = false)
    (slice ds (i * s) (Z.min s (Z.of_nat (length ds) - i * s))) →
  files w' !! shard_path out (start + i) = Some []
  ∧ (∀ samples, head (save_shard out (start + i) samples)
                = Some (Open (shard_path out (start + i))))
  ∧ (∀ w0 samples,
       Forall (λ x, valid x = false) samples →
       files (exec (save_shard out (start + i) samples) w0)
         !! shard_path out (start + i) = Some []).
Proof.
  intros Hs Hrun Hi Hbad.
  assert (∀ samples, Forall (λ x, valid x = false) samples →
                     shard_records samples = []) as Hnone.
  { intros samples Hall.
    destruct (shard_records samples) as [|r l] eqn:Heq; [done|].
    assert (r ∈ shard_records samples)
      as (j & x & Hx & Hv & _)%elem_of_shard_records by (rewrite Heq; left).
    rewrite Forall_forall in Hall.
    rewrite (Hall x) in Hv by (by eapply list_elem_of_lookup_2). done. }
  split_and!.
  - rewrite (run_files_planned _ _ _ _ _ _ _ _ _ Hs Hrun Hi).
    by rewrite Hnone.
  - done.
  - intros w0 samples Hall.
    by rewrite exec_files_lookup, exec_file_save_shard, Hnone.
Qed.

(** C9: for a planned task (any N, shard size S > 0) the indices handed
    to [select] are range(start_idx, min(len(dataset), start_idx + S)),
    every one of them is a valid index of the dataset, and [select]
    returns the slice instead of raising. *)
Theorem C9_indices_within_dataset ds out s start ts t :
  0 < s →
  shard_tasks ds out s start = Some ts →
  t ∈ ts →
  let n := Z.of_nat (length ds) in
  task_indices t
  = Py.range2 (t_start_idx t) (Z.min n (t_start_idx t + s))
  ∧ Forall (λ i, 0 ≤ i < n) (task_indices t)
  ∧ select ds (task_indices t) = Some (task_samples t)
  ∧ process_single_shard t = Some (task_trace t, t_shard_idx t).
Proof.
  intros Hs Hts Ht n. rewrite shard_tasks_planned in Hts by done.
  injection Hts as <-.
  pose proof Ht as (i & Hi & ->)%elem_of_planned.
  assert (0 ≤ i * s) by nia.
  split_and!.
  - done.
  - apply Forall_forall. intros j Hj%elem_of_range2. simpl in Hj.
    fold n in Hj. lia.
  - by apply (select_task (mk_task ds (start + i) (i * s) out s)).
  - by apply process_single_shard_ok.
Qed.

(** C10: an archive that is already in the output directory when a run
    starts, under the path of one of the run's shards, holds afterwards
    the records of the new run only; nothing of its old contents is left
    and the run does not fail. *)
Theorem C10_existing_shard_overwritten ds out s np start sched w w' i old :
  0 < s →
  create_webdataset_run ds out s np start sched w w' →
  0 ≤ i < ceil_div (Z.of_nat (length ds)) s →
  files w !! shard_path out (start + i) = Some old →
  files w' !! shard_path out (start + i)
  = Some (shard_records
            (slice ds (i * s) (Z.min s (Z.of_nat (length ds) - i * s))))
  ∧ (∀ samples w0,
       files (exec (save_shard out (start + i) samples)
                (mk_world (<[shard_path out (start + i) := old]> (files w0))
                          (stdout w0)))
         !! shard_path out (start + i)
       = Some (shard_records samples))
  ∧ is_Some (create_webdataset ds out s np start w).
Proof.
  intros Hs Hrun Hi _. split_and!.
  - apply (run_files_planned _ _ _ _ _ _ _ _ _ Hs Hrun Hi).
  - intros samples w0. by rewrite exec_files_lookup, exec_file_save_shard.
  - by eapply run_in_order_total.
Qed.

End Claims.

(** * The claims on the small dataset *)

Lemma C1_planner_partitions_witness :
  ∃ ts,
    shard_tasks (replicate 5 (mk_sample (mk_ndarray [] []) (mk_ndarray [] [])))
      "out" 2 7 = Some ts
    ∧ Z.of_nat (length ts) = 3.
Proof.
  destruct (C1_planner_partitions
              (replicate 5 (mk_sample (mk_ndarray [] []) (mk_ndarray [] [])))
              "out" 2 7) as (ts & Hts & Hlen & _); [lia|].
  exists ts. split; [exact Hts|exact Hlen].
Defined.

Lemma C2_written_iff_all_finite_witness :
  record_of (C := stored) (sample_key 2) good_sample
  ∈ written (save_shard "out" 0 [good_sample; nan_sample; good_sample]).
Proof.
  pose proof (C2_written_iff_all_finite (C := stored) "out" 0
                [good_sample; nan_sample; good_sample] 2 good_sample
                eq_refl) as (_ & Hw & _).
  apply Hw. repeat constructor.
Defined.


Lemma C5_shard_file_names_witness :
  opened small_sched_rev
  ≡ₚ (λ i, Py.path_join "out" ("shard-" +:+ Py.format_0d 5 (3 + i) +:+ ".tar"))
       <$> Py.range (ceil_div 5 2).
Proof.
  refine (proj1
    (C5_shard_file_names (C := stored) small_dataset "out" 2 8 3
       small_sched_rev empty_world (after small_sched_rev empty_world) _ _)).
  - lia.
  - run_by_evaluation.
Defined.

Lemma C6_contents_independent_of_schedule_witness :
  files (after small_sched empty_world)
  = files (after small_sched_rev empty_world).
Proof.
  refine (proj2
    (C6_contents_independent_of_schedule (C := stored) small_dataset "out" 2
       8 1 3 small_sched small_sched_rev empty_world empty_world
       (after small_sched empty_world) (after small_sched_rev empty_world)
       _ _ _) _).
  - lia.
  - run_by_evaluation.
  - run_by_evaluation.
  - reflexivity.
Defined.

Lemma C8_all_skipped_shard_exists_witness :
  files (after small_sched_rev empty_world) !! shard_path "out" (3 + 2)
  = Some [].
Proof.
  refine (proj1
    (C8_all_skipped_shard_exists (C := stored) small_dataset "out" 2 8 3
       small_sched_rev empty_world (after small_sched_rev empty_world) 2
       _ _ _ _)).
  - lia.
  - run_by_evaluation.
  - split; [lia|reflexivity].
  - vm_compute. repeat constructor.
Defined.

Lemma C9_indices_within_dataset_witness :
  let ds := replicate 5 (mk_sample (mk_ndarray [] []) (mk_ndarray [] [])) in
  let t := mk_task ds 9 4 "out" 2 in
  Forall (λ i, 0 ≤ i < 5) (task_indices t).
Proof.
  intros ds t.
  refine (proj1 (proj2 (C9_indices_within_dataset (C := stored) ds "out" 2 7
            [mk_task ds 7 0 "out" 2; mk_task ds 8 2 "out" 2; t] t _ _ _))).
  - lia.
  - reflexivity.
  - apply list_elem_of_In. simpl. auto.
Defined.

Lemma C10_existing_shard_overwritten_witness :
  let old := [record_of (C := stored) (sample_key 9) inf_sample] in
  let w := mk_world {[ shard_path "out" (3 + 0) := old ]} [] in
  files (after small_sched w) !! shard_path "out" (3 + 0)
  = Some (shard_records (slice small_dataset (0 * 2) (Z.min 2 (5 - 0 * 2)))).
Proof.
  intros old w.
  refine (proj1
    (C10_existing_shard_overwritten (C := stored) small_dataset "out" 2 8 3
       small_sched w (after small_sched w) 0 old _ _ _ _)).
  - lia.
  - run_by_evaluation.
  - split; [lia|reflexivity].
  - apply lookup_singleton_eq.
Defined.

(** * Shard sizes that are not positive *)

Section EdgeFacts.

Context {C : Codec}.


Lemma shard_tasks_nonzero ds out s start :
  s ≠ 0 →
  shard_tasks ds out s start
  = Some ((λ i, mk_task ds (start + i) (i * s) out s)
            <$> Py.range ((Z.of_nat (length ds) + s - 1) `div` s)).
Proof.
  intros Hs. unfold shard_tasks, total_shards, Py.floordiv.
  by destruct (Z.eqb_spec s 0).
Qed.

(** With a negative shard size a task asks for no index and gets no
    sample. *)
Lemma task_indices_neg t : t_shard_size t < 0 → task_indices t = [].
Proof.
  intros Hs. unfold task_indices, Py.range2.
  by replace (Z.to_nat _) with 0%nat by lia.
Qed.

Lemma task_samples_neg t : t_shard_size t < 0 → task_samples t = [].
Proof.
  intros Hs. unfold task_samples, slice, task_count.
  by replace (Z.to_nat (Z.min _ _)) with 0%nat by lia.
Qed.

Lemma select_task_neg t :
  t_shard_size t < 0 →
  select (t_dataset t) (task_indices t) = Some (task_samples t).
Proof. intros Hs. by rewrite task_indices_neg, task_samples_neg. Qed.

Lemma task_traces_neg ts :
  Forall (λ t, t_shard_size t < 0) ts →
  task_traces ts = Some (task_trace <$> ts).
Proof.
  intros Hts. unfold task_traces. apply mapM_Some, Forall2_fmap_r.
  apply Forall_Forall2_diag. eapply Forall_impl; [exact Hts|].
  intros t Ht. simpl. unfold process_single_shard.
  by rewrite select_task_neg.
Qed.

Lemma written_concat trs : written (concat trs) = concat (written <$> trs).
Proof.
  induction trs as [|tr trs IH]; [done|].
  rewrite fmap_cons. simpl. by rewrite written_app, IH.
Qed.

Lemma written_task_trace t :
  written (task_trace t) = shard_records (task_samples t).
Proof. apply written_save_shard. Qed.

(** A trace that writes nothing leaves an archive empty if it opens it,
    and as it was if it does not. *)
Lemma exec_file_no_write tr f :
  written tr = [] →
  exec_file tr f = if opened tr is [] then f else Some [].
Proof.
  revert f. induction tr as [|a tr IH]; intros f Hw; [done|].
  rewrite exec_file_cons. destruct a as [q|q r|q|l]; simpl in *.
  - rewrite IH by done. by destruct (opened tr).
  - done.
  - by apply IH.
  - by apply IH.
Qed.

Lemma written_on_file p tr : written tr = [] → written (on_file p tr) = [].
Proof.
  induction tr as [|a tr IH]; [done|]. intros Hw.
  destruct (touches p a) eqn:Ht.
  - rewrite on_file_cons_touch by done. destruct a; simpl in *; auto.
    discriminate.
  - rewrite on_file_cons_skip by done. destruct a; simpl in *; auto.
    discriminate.
Qed.

Lemma opened_on_file p tr :
  opened (on_file p tr) = filter (λ q, q = p) (opened tr).
Proof.
  induction tr as [|a tr IH]; [done|].
  destruct a as [q|q r|q|l].
  - change (opened (Open q :: tr)) with (q :: opened tr).
    destruct (decide (q = p)) as [->|Hne].
    + rewrite on_file_cons_touch by auto using touches_same.
      rewrite filter_cons_True by done.
      change (opened (Open p :: on_file p tr)) with (p :: opened (on_file p tr)).
      by rewrite IH.
    + rewrite on_file_cons_skip by auto using touches_other.
      by rewrite filter_cons_False.
  - change (opened (Write q r :: tr)) with (opened tr).
    destruct (touches p (Write q r)) eqn:Ht.
    + by rewrite on_file_cons_touch.
    + by rewrite on_file_cons_skip.
  - change (opened (Close q :: tr)) with (opened tr).
    destruct (touches p (Close q)) eqn:Ht.
    + by rewrite on_file_cons_touch.
    + by rewrite on_file_cons_skip.
  - change (opened (Print l :: tr)) with (opened tr).
    by rewrite on_file_cons_skip.
Qed.

End EdgeFacts.

(** * Further properties of the script *)

Section FailureProperties.

Context {C : Codec}.



Lemma task_traces_nonzero ds out s start ts :
  s ≠ 0 →
  shard_tasks ds out s start = Some ts →
  task_traces ts = Some (task_trace <$> ts).
Proof.
  intros Hs Hts. destruct (Z.lt_ge_cases 0 s).
  - rewrite shard_tasks_planned in Hts by done. injection Hts as <-.
    by apply task_traces_ok, planned_start_nonneg.
  - rewrite shard_tasks_nonzero in Hts by done. injection Hts as <-.
    apply task_traces_neg, Forall_fmap, Forall_forall.
    intros i _. simpl. lia.
Qed.

(** The in-order run returns once the directory can be made, the shard
    size is not zero and the pool has a process. *)
Lemma create_webdataset_returns ds out s np start w :
  makedirs out w = Some w → s ≠ 0 → 1 ≤ np →
  ∃ ts,
    shard_tasks ds out s start = Some ts
    ∧ create_webdataset ds out s np start w
      = Some (exec (concat (task_trace <$> ts))
                (step (Print (total_message (Z.of_nat (length ds)))) w)).
Proof.
  intros Hmk Hs Hnp. unfold create_webdataset. rewrite Hmk. simpl.
  rewrite shard_tasks_nonzero by done. simpl.
  destruct (Z.ltb_spec np 1); [lia|].
  erewrite task_traces_nonzero by (try apply shard_tasks_nonzero; done).
  simpl. by eexists.
Qed.


(** X2: a negative shard size does not make the script fail: whenever
    the directory can be made and the pool has a process there is a run,
    and the in-order one returns.  Such a run writes no record and no
    diagnostic: every archive it opens is left empty, every other path is
    left as it was, and a dataset of two samples or more gets no archive
    at all. *)
Theorem negative_shard_size_writes_nothing ds out s start :
  s < 0 →
  (∀ np w,
     1 ≤ np → makedirs out w = Some w →
     is_Some (create_webdataset ds out s np start w)
     ∧ ∃ sched w', create_webdataset_run ds out s np start sched w w')
  ∧ (∀ np sched w w',
       create_webdataset_run ds out s np start sched w w' →
       written sched = []
       ∧ printed sched = []
       ∧ (∀ p, p ∈ opened sched → files w' !! p = Some [])
       ∧ (∀ p, p ∉ opened sched → files w' !! p = files w !! p)
       ∧ ((2 ≤ length ds)%nat → sched = [])).
Proof.
  intros Hs. split.
  { intros np w Hnp Hmk.
    destruct (create_webdataset_returns ds out s np start w Hmk)
      as (ts & Hts & Hret); [lia|done|].
    split; [by rewrite Hret|].
    eexists (concat (task_trace <$> ts)), _. exists ts, (task_trace <$> ts).
    split_and!; try done.
    - by apply (task_traces_nonzero ds out s start); [lia|].
    - apply interleaving_concat. }
  intros np sched w w' (ts & trs & _ & Hts & _ & Htrs & Hil & ->).
  rewrite shard_tasks_nonzero in Hts by lia. injection Hts as <-.
  set (k := (Z.of_nat (length ds) + s - 1) `div` s) in *.
  set (ts := (λ i, mk_task ds (start + i) (i * s) out s) <$> Py.range k) in *.
  assert (Forall (λ t, t_shard_size t < 0) ts) as Hneg.
  { apply Forall_fmap, Forall_forall. intros i _. simpl. lia. }
  rewrite task_traces_neg in Htrs by done. injection Htrs as <-.
  pose proof (interleaving_Permutation _ _ Hil) as Hperm.
  assert (written sched = []) as Hw.
  { assert (written (concat (task_trace <$> ts)) = []) as Hnil.
    { rewrite written_concat, <- list_fmap_compose.
      apply concat_nil_Forall, Forall_fmap, Forall_forall.
      intros t Ht%(proj1 (Forall_forall _ _) Hneg). unfold compose.
      by rewrite written_task_trace, task_samples_neg. }
    apply Permutation_nil_r. unfold written in *. by rewrite Hperm, Hnil. }
  assert (∀ p, files (exec sched (step (Print (total_message
                  (Z.of_nat (length ds)))) w)) !! p
               = if opened (on_file p sched) is [] then files w !! p
                 else Some []) as Hfile.
  { intros p. rewrite exec_files_lookup.
    by rewrite exec_file_no_write by by apply written_on_file. }
  split_and!.
  - done.
  - assert (printed (concat (task_trace <$> ts)) = []) as Hnil.
    { clear Hil Hperm Hfile. induction Hneg as [|t l Ht _ IH]; [done|].
      rewrite fmap_cons, concat_cons, printed_app, IH, app_nil_r.
      unfold task_trace. rewrite printed_save_shard.
      by rewrite task_samples_neg. }
    apply Permutation_nil_r. unfold printed in *. by rewrite Hperm, Hnil.
  - intros p Hp. rewrite Hfile, opened_on_file.
    destruct (filter _ (opened sched)) as [|q l] eqn:Hf; [|done].
    assert (p ∈ filter (λ q, q = p) (opened sched)) as Hin
      by by apply list_elem_of_filter.
    rewrite Hf in Hin. by apply elem_of_nil in Hin.
  - intros p Hp. rewrite Hfile, opened_on_file.
    destruct (filter _ (opened sched)) as [|q l] eqn:Hf; [done|].
    assert (q ∈ filter (λ q, q = p) (opened sched)) as [-> Hin]%list_elem_of_filter
      by (rewrite Hf; left).
    done.
  - intros Hn. apply Permutation_nil_r. rewrite Hperm.
    assert (k ≤ 0) as Hk.
    { unfold k.
      pose proof (Z.div_mod (Z.of_nat (length ds) + s - 1) s ltac:(lia)).
      pose proof (Z.mod_neg_bound (Z.of_nat (length ds) + s - 1) s Hs).
      nia. }
    unfold ts, Py.range. by replace (Z.to_nat k) with 0%nat by lia.
Qed.

End FailureProperties.

(** The empty path, a path that is a file, and a path under a file are
    refused; a directory that holds archives already is accepted. *)
Example makedirs_examples :
  let w := mk_world (C := stored) {[ "out/shard-00000.tar" := []; "notes" := [] ]} [] in
  ancestors "a/b/c" = ["a"; "a/b"]
  ∧ ancestors "/a/b" = ["/a"]
  ∧ makedirs "" w = None
  ∧ makedirs "notes" w = None
  ∧ makedirs "notes/" w = None
  ∧ makedirs "notes/shards" w = None
  ∧ makedirs "out" w = Some w
  ∧ makedirs "out/" w = Some w
  ∧ makedirs "fresh/dir" w = Some w
  ∧ create_webdataset small_dataset "" 2 8 0 w = None
  ∧ create_webdataset small_dataset "notes" 2 8 0 w = None.
Proof. vm_compute. repeat split; reflexivity. Qed.

Lemma negative_shard_size_writes_nothing_witness :
  files (exec (save_shard (C := stored) "out" 3 [])
           (step (Print (total_message 1)) empty_world))
    !! shard_path "out" 3 = Some [].
Proof.
  refine (proj1 (proj2 (proj2 (proj2
    (negative_shard_size_writes_nothing (C := stored) [good_sample] "out"
       (-3) 3 _) 8 (save_shard "out" 3 []) empty_world _ _))) _ _).
  - lia.
  - run_by_evaluation.
  - apply list_elem_of_In. simpl. auto.
Defined.

Section DirectoryProperties.

Context {C : Codec}.

(** The archives a run makes, with their contents. *)
Lemma run_entries_fst ds out s start :
  ((λ i, (shard_path out (start + i),
          shard_records
            (slice ds (i * s) (Z.min s (Z.of_nat (length ds) - i * s)))))
     <$> Py.range (ceil_div (Z.of_nat (length ds)) s)).*1
  = (λ i, shard_path out (start + i))
      <$> Py.range (ceil_div (Z.of_nat (length ds)) s).
Proof. by rewrite <- list_fmap_compose. Qed.

(** The directory after a run, as a map. *)
Lemma run_files_union ds out s np start sched w w' :
  0 < s →
  create_webdataset_run ds out s np start sched w w' →
  files w'
  = list_to_map
      ((λ i, (shard_path out (start + i),
              shard_records
                (slice ds (i * s) (Z.min s (Z.of_nat (length ds) - i * s)))))
         <$> Py.range (ceil_div (Z.of_nat (length ds)) s))
    ∪ files w.
Proof.
  intros Hs Hrun. apply map_eq. intros q.
  set (k := ceil_div (Z.of_nat (length ds)) s).
  destruct (decide (q ∈ (λ i, shard_path out (start + i)) <$> Py.range k))
    as [Hin|Hout].
  - pose proof Hin as (i & Hi & ->)%elem_of_shard_paths.
    rewrite (run_files_planned _ _ _ _ _ _ _ _ _ Hs Hrun Hi).
    symmetry. apply lookup_union_Some_l, elem_of_list_to_map_1.
    + rewrite run_entries_fst, <- task_path_planned.
      apply NoDup_task_path_planned.
    + apply list_elem_of_fmap. exists i. split; [done|].
      unfold Py.range. apply list_elem_of_fmap. exists (Z.to_nat i).
      split; [lia|]. apply elem_of_seq. lia.
  - rewrite lookup_union_r.
    + apply (run_files_other _ _ _ _ _ _ _ _ q Hs Hrun).
      intros i Hi ->. apply Hout, elem_of_shard_paths. eauto.
    + apply not_elem_of_list_to_map_1. by rewrite run_entries_fst.
Qed.


(** X4: a second run into the same directory whose start index lies past
    the indices of the first leaves the archives of the first run as they
    were, beside its own. *)
Theorem later_start_index_appends
    ds1 ds2 out s1 s2 np1 np2 start1 start2 sched1 sched2 w0 w1 w2 :
  0 < s1 → 0 < s2 →
  create_webdataset_run ds1 out s1 np1 start1 sched1 w0 w1 →
  create_webdataset_run ds2 out s2 np2 start2 sched2 w1 w2 →
  start1 + ceil_div (Z.of_nat (length ds1)) s1 ≤ start2 →
  (∀ i, 0 ≤ i < ceil_div (Z.of_nat (length ds1)) s1 →
        files w2 !! shard_path out (start1 + i)
        = Some (shard_records
                  (slice ds1 (i * s1)
                     (Z.min s1 (Z.of_nat (length ds1) - i * s1)))))
  ∧ (∀ i, 0 ≤ i < ceil_div (Z.of_nat (length ds2)) s2 →
          files w2 !! shard_path out (start2 + i)
          = Some (shard_records
                    (slice ds2 (i * s2)
                       (Z.min s2 (Z.of_nat (length ds2) - i * s2))))).
Proof.
  intros Hs1 Hs2 Hrun1 Hrun2 Hstart. split.
  - intros i Hi.
    rewrite (run_files_other _ _ _ _ _ _ _ _ _ Hs2 Hrun2).
    + apply (run_files_planned _ _ _ _ _ _ _ _ _ Hs1 Hrun1 Hi).
    + intros j Hj Heq%shard_path_inj. lia.
  - intros i Hi. apply (run_files_planned _ _ _ _ _ _ _ _ _ Hs2 Hrun2 Hi).
Qed.

(** X5: running the script again on the same dataset with the same shard
    size, start index and directory changes no file, whatever the two
    schedules and pool sizes. *)
Theorem rerun_changes_nothing
    ds out s np1 np2 start sched1 sched2 w0 w1 w2 :
  0 < s →
  create_webdataset_run ds out s np1 start sched1 w0 w1 →
  create_webdataset_run ds out s np2 start sched2 w1 w2 →
  files w2 = files w1.
Proof.
  intros Hs Hrun1 Hrun2.
  rewrite (run_files_union _ _ _ _ _ _ _ _ Hs Hrun2).
  rewrite (run_files_union _ _ _ _ _ _ _ _ Hs Hrun1).
  by rewrite (assoc_L (∪)), (idemp_L (∪)).
Qed.

End DirectoryProperties.

Section SliceFacts.

Context {C : Codec}.

Lemma lookup_slice ds a c (j : nat) :
  slice ds a c !! j
  = if decide (Z.of_nat j < c) then ds !! (Z.to_nat a + j)%nat else None.
Proof.
  unfold slice. rewrite lookup_take, lookup_drop.
  repeat case_decide; try done; lia.
Qed.

Lemma length_slice ds a c :
  0 ≤ a → 0 ≤ c → a + c ≤ Z.of_nat (length ds) →
  Z.of_nat (length (slice ds a c)) = c.
Proof.
  intros Ha Hc Hac. unfold slice. rewrite length_take, length_drop. lia.
Qed.

(** The slices of the first [j] planned tasks, end to end. *)
Lemma slices_concat ds s (j : nat) :
  0 < s → (Z.of_nat j - 1) * s < Z.of_nat (length ds) →
  concat ((λ i, slice ds (i * s) (Z.min s (Z.of_nat (length ds) - i * s)))
            <$> Py.range (Z.of_nat j))
  = take (Z.to_nat (Z.min (Z.of_nat (length ds)) (Z.of_nat j * s))) ds.
Proof.
  intros Hs. induction j as [|j IH]; intros Hj.
  - simpl. by replace (Z.to_nat _) with 0%nat by lia.
  - unfold Py.range in *. rewrite Nat2Z.id in *.
    rewrite seq_S, !fmap_app, concat_app. simpl.
    rewrite IH, app_nil_r by lia. unfold slice.
    replace (Z.to_nat (Z.min (Z.of_nat (length ds)) (Z.of_nat j * s)))
      with (Z.to_nat (Z.of_nat j * s)) by nia.
    rewrite take_take_drop. f_equal. nia.
Qed.

Lemma planned_slices_concat ds s :
  0 < s →
  concat ((λ i, slice ds (i * s) (Z.min s (Z.of_nat (length ds) - i * s)))
            <$> Py.range (ceil_div (Z.of_nat (length ds)) s))
  = ds.
Proof.
  intros Hs. set (n := Z.of_nat (length ds)).
  pose proof (ceil_div_bounds n s Hs) as Hc.
  pose proof (ceil_div_nonneg n s Hs ltac:(lia)) as Hc0.
  rewrite <- (Z2Nat.id (ceil_div n s)) by done.
  unfold n. rewrite slices_concat by (fold n; lia). fold n.
  apply take_ge. lia.
Qed.

Lemma kept_from_snd j0 (l : list sample) :
  (filter (λ js, valid js.2 = true) (imap (λ j s, ((j0 + j)%nat, s)) l)).*2
  = filter (λ x, valid x = true) l.
Proof.
  revert j0. induction l as [|x l IH]; intros j0; [done|].
  rewrite imap_cons.
  assert (imap ((λ j s0, ((j0 + j)%nat, s0)) ∘ S) l
          = imap (λ j s0, ((S j0 + j)%nat, s0)) l) as ->.
  { apply imap_ext. intros j y _. simpl. f_equal. lia. }
  destruct (valid x) eqn:Hv.
  - rewrite !filter_cons_True by done. by rewrite fmap_cons, IH.
  - rewrite !filter_cons_False by (simpl; congruence). apply IH.
Qed.

Lemma kept_snd l : (kept l).*2 = filter (λ x, valid x = true) l.
Proof. apply (kept_from_snd 0). Qed.

Lemma filter_concat {A} (P : A → Prop) `{∀ x, Decision (P x)} (ls : list (list A)) :
  filter P (concat ls) = concat (filter P <$> ls).
Proof.
  induction ls as [|l ls IH]; [done|].
  rewrite fmap_cons. simpl. by rewrite filter_app, IH.
Qed.

Lemma length_shard_records sl :
  (length (shard_records sl) ≤ length sl)%nat
  ∧ (Forall (λ x, valid x = true) sl → length (shard_records sl) = length sl).
Proof.
  pose proof (written_printed_length "" 0 sl) as Hlen.
  rewrite written_save_shard, printed_save_shard, length_fmap in Hlen.
  split; [lia|]. intros Hall.
  assert (filter (λ js, valid js.2 = false) (enumerate sl) = []) as Hnone.
  { destruct (filter _ (enumerate sl)) as [|[j x] l] eqn:Hf; [done|].
    assert ((j, x) ∈ filter (λ js, valid js.2 = false) (enumerate sl))
      as [Hv Hin%elem_of_enumerate]%list_elem_of_filter by (rewrite Hf; left).
    rewrite Forall_forall in Hall. simpl in Hv.
    rewrite (Hall x) in Hv by (by eapply list_elem_of_lookup_2). done. }
  rewrite Hnone in Hlen. simpl in Hlen. lia.
Qed.

End SliceFacts.

Section ContentProperties.

Context {C : Codec}.

(** X6: the slices of the planned tasks, in shard order, make up the
    dataset; so the archives read in shard order hold the records of the
    valid samples of the dataset in dataset order, each once. *)
Theorem shards_hold_valid_samples_in_order ds out s np start sched w w' :
  0 < s →
  create_webdataset_run ds out s np start sched w w' →
  let k := ceil_div (Z.of_nat (length ds)) s in
  let slices :=
    (λ i, slice ds (i * s) (Z.min s (Z.of_nat (length ds) - i * s)))
      <$> Py.range k in
  concat slices = ds
  ∧ (λ i, files w' !! shard_path out (start + i)) <$> Py.range k
    = (λ sl, Some (shard_records sl)) <$> slices
  ∧ concat ((λ sl, (kept sl).*2) <$> slices)
    = filter (λ x, valid x = true) ds.
Proof.
  intros Hs Hrun k slices. split_and!.
  - by apply planned_slices_concat.
  - unfold slices. rewrite <- list_fmap_compose.
    apply list_fmap_ext. intros _ i Hi%list_elem_of_lookup_2. simpl.
    apply (run_files_planned _ _ _ _ _ _ _ _ _ Hs Hrun).
    unfold Py.range in Hi.
    apply list_elem_of_fmap in Hi as (j & -> & Hj%elem_of_seq). lia.
  - trans (filter (λ x, valid x = true) (concat slices)).
    + rewrite filter_concat. f_equal.
      apply list_fmap_ext. intros _ sl _. apply kept_snd.
    + unfold slices, k. by rewrite planned_slices_concat.
Qed.

(** X8: row g of the dataset, when valid, is found in the archive of
    shard index shard_start_idx + g // S under the key sample{g % S:06d};
    and every record of the archive of task i with key position j is the
    record of the valid row i*S + j, with j < S. *)
Theorem record_location ds out s np start sched w w' :
  0 < s →
  create_webdataset_run ds out s np start sched w w' →
  (∀ (g : nat) x,
     ds !! g = Some x → valid x = true →
     ∃ rs, files w' !! shard_path out (start + Z.of_nat g `div` s) = Some rs
           ∧ record_of (sample_key (Z.to_nat (Z.of_nat g `mod` s))) x ∈ rs)
  ∧ (∀ i rs r,
       0 ≤ i < ceil_div (Z.of_nat (length ds)) s →
       files w' !! shard_path out (start + i) = Some rs →
       r ∈ rs →
       ∃ (j : nat) x,
         Z.of_nat j < s
         ∧ ds !! (Z.to_nat (i * s) + j)%nat = Some x
         ∧ valid x = true
         ∧ r = record_of (sample_key j) x).
Proof.
  intros Hs Hrun.
  pose proof (ceil_div_bounds (Z.of_nat (length ds)) s Hs) as Hc.
  split.
  - intros g x Hg Hv.
    pose proof (lookup_lt_Some _ _ _ Hg) as Hlt.
    pose proof (Z.div_mod (Z.of_nat g) s ltac:(lia)) as Hdm.
    pose proof (Z.mod_pos_bound (Z.of_nat g) s Hs) as Hm.
    assert (0 ≤ Z.of_nat g `div` s) as Hq by (apply Z.div_pos; lia).
    assert (Z.of_nat g `div` s < ceil_div (Z.of_nat (length ds)) s) as Hi by nia.
    eexists. split.
    + apply (run_files_planned _ _ _ _ _ _ _ _ _ Hs Hrun). lia.
    + apply elem_of_shard_records.
      exists (Z.to_nat (Z.of_nat g `mod` s)), x. split_and!; try done.
      rewrite lookup_slice. rewrite decide_True by lia.
      rewrite <- Hg. f_equal. lia.
  - intros i rs r Hi Hrs Hr.
    rewrite (run_files_planned _ _ _ _ _ _ _ _ _ Hs Hrun Hi) in Hrs.
    injection Hrs as <-.
    apply elem_of_shard_records in Hr as (j & x & Hx & Hv & ->).
    rewrite lookup_slice in Hx. case_decide; [|done].
    exists j, x. split_and!; try done. lia.
Qed.

(** X10: the archive of every planned task holds at most shard_size
    records, never more than its slice has samples, and as many when the
    slice is all valid; every slice but the last one has exactly
    shard_size samples, and the last one at least one. *)
Theorem shard_record_bounds ds out s np start sched w w' i :
  0 < s →
  create_webdataset_run ds out s np start sched w w' →
  0 ≤ i < ceil_div (Z.of_nat (length ds)) s →
  let sl := slice ds (i * s) (Z.min s (Z.of_nat (length ds) - i * s)) in
  ∃ rs,
    files w' !! shard_path out (start + i) = Some rs
    ∧ Z.of_nat (length rs) ≤ Z.of_nat (length sl) ≤ s
    ∧ (Forall (λ x, valid x = true) sl → length rs = length sl)
    ∧ 1 ≤ Z.of_nat (length sl)
    ∧ (i < ceil_div (Z.of_nat (length ds)) s - 1 → Z.of_nat (length sl) = s).
Proof.
  intros Hs Hrun Hi sl.
  pose proof (ceil_div_bounds (Z.of_nat (length ds)) s Hs) as Hc.
  assert (i * s < Z.of_nat (length ds)) as Hlt by nia.
  assert (Z.of_nat (length sl) = Z.min s (Z.of_nat (length ds) - i * s))
    as Hlen by (apply length_slice; lia).
  destruct (length_shard_records sl) as [Hle Hall].
  exists (shard_records sl). split_and!.
  - apply (run_files_planned _ _ _ _ _ _ _ _ _ Hs Hrun Hi).
  - lia.
  - lia.
  - exact Hall.
  - lia.
  - intros Hnotlast. nia.
Qed.

(** X7: [save_shard] prints one line for each invalid sample of the
    slice, in slice order, naming the key of the sample's position, and
    nothing else; no two lines of a shard are equal, and the lines do not
    tell the shard: they are the same for any directory and index. *)
Theorem skip_diagnostics out idx samples :
  printed (save_shard out idx samples)
  = (λ js, "Skipping sample " +:+ sample_key js.1
             +:+ " due to NaN or Inf in input_features.")
      <$> filter (λ js, valid js.2 = false) (enumerate samples)
  ∧ NoDup (printed (save_shard out idx samples))
  ∧ (∀ out' idx',
       printed (save_shard out' idx' samples)
       = printed (save_shard out idx samples)).
Proof.
  split_and!.
  - apply printed_save_shard.
  - rewrite printed_save_shard.
    apply NoDup_fmap_2_strong; [|apply NoDup_filter].
    + intros [j x] [j' x'] [_ Hx%elem_of_enumerate]%list_elem_of_filter
        [_ Hx'%elem_of_enumerate]%list_elem_of_filter Heq.
      unfold skip_message in Heq. simpl in Heq.
      apply String.app_inj, string_app_inv_r, sample_key_inj in Heq.
      subst. congruence.
    + unfold enumerate. apply NoDup_fmap_1 with (f := fst).
      rewrite fmap_imap.
      rewrite (imap_ext _ (λ j _, id j)) by done.
      rewrite (imap_seq_0 samples id), list_fmap_id. apply NoDup_seq.
  - intros out' idx'. by rewrite !printed_save_shard.
Qed.

End ContentProperties.

(** * The width of the printed numbers *)

Section DigitFacts.

Local Open Scope N_scope.

Lemma usize_length d :
  N.of_nat (String.length (NilEmpty.string_of_uint d))
  = DecimalPos.Unsigned.usize d.
Proof.
  induction d; simpl DecimalPos.Unsigned.usize; simpl String.length;
    rewrite ?Nat2N.inj_succ, ?IHd; reflexivity.
Qed.

Lemma usize_cons d :
  d ≠ Decimal.Nil →
  DecimalPos.Unsigned.usize d
  = N.succ (DecimalPos.Unsigned.usize (DecimalPos.Unsigned.tl d)).
Proof. destruct d; intros H; [congruence|reflexivity..]. Qed.

(** The value of a number read from its first digit on. *)
Lemma of_uint_cons d :
  d ≠ Decimal.Nil →
  N.of_uint d
  = DecimalPos.Unsigned.hd d
      * 10 ^ DecimalPos.Unsigned.usize (DecimalPos.Unsigned.tl d)
    + N.of_uint (DecimalPos.Unsigned.tl d).
Proof.
  intros Hd. unfold N.of_uint. rewrite !DecimalPos.Unsigned.of_uint_alt.
  destruct d; try congruence; unfold Decimal.rev; simpl Decimal.revapp;
    rewrite DecimalPos.Unsigned.of_lu_revapp;
    simpl DecimalPos.Unsigned.hd; simpl DecimalPos.Unsigned.tl;
    unfold Decimal.rev;
    change (DecimalPos.Unsigned.of_lu (Decimal.D0 Decimal.Nil)) with 0;
    change (DecimalPos.Unsigned.of_lu (Decimal.D1 Decimal.Nil)) with 1;
    change (DecimalPos.Unsigned.of_lu (Decimal.D2 Decimal.Nil)) with 2;
    change (DecimalPos.Unsigned.of_lu (Decimal.D3 Decimal.Nil)) with 3;
    change (DecimalPos.Unsigned.of_lu (Decimal.D4 Decimal.Nil)) with 4;
    change (DecimalPos.Unsigned.of_lu (Decimal.D5 Decimal.Nil)) with 5;
    change (DecimalPos.Unsigned.of_lu (Decimal.D6 Decimal.Nil)) with 6;
    change (DecimalPos.Unsigned.of_lu (Decimal.D7 Decimal.Nil)) with 7;
    change (DecimalPos.Unsigned.of_lu (Decimal.D8 Decimal.Nil)) with 8;
    change (DecimalPos.Unsigned.of_lu (Decimal.D9 Decimal.Nil)) with 9;
    lia.
Qed.

Lemma of_uint_lt d : N.of_uint d < 10 ^ DecimalPos.Unsigned.usize d.
Proof.
  induction d; [reflexivity|..];
    rewrite of_uint_cons by discriminate;
    simpl DecimalPos.Unsigned.hd; simpl DecimalPos.Unsigned.tl;
    simpl DecimalPos.Unsigned.usize;
    rewrite N.pow_succ_r'; lia.
Qed.

Lemma of_uint_ge d :
  DecimalPos.Unsigned.hd d ≠ 0 →
  10 ^ DecimalPos.Unsigned.usize (DecimalPos.Unsigned.tl d) ≤ N.of_uint d.
Proof.
  intros Hh. destruct d; [simpl in Hh; congruence|..];
    rewrite of_uint_cons by discriminate;
    simpl DecimalPos.Unsigned.hd in *; simpl DecimalPos.Unsigned.tl;
    try congruence; nia.
Qed.

(** A positive number is printed without a leading zero. *)
Lemma to_uint_head p : DecimalPos.Unsigned.hd (Pos.to_uint p) ≠ 0.
Proof.
  pose proof (DecimalPos.Unsigned.to_of (Pos.to_uint p)) as H.
  rewrite DecimalPos.Unsigned.of_to in H. simpl in H.
  pose proof (DecimalPos.Unsigned.to_uint_nonzero p) as Hz.
  destruct (Pos.to_uint p) as [|d| | | | | | | | |] eqn:E; simpl;
    try discriminate.
  exfalso. revert H. unfold Decimal.unorm. simpl Decimal.nzhead.
  destruct (Decimal.nzhead d) eqn:En; intros H; try discriminate;
    try congruence.
  exact (nzhead_nonzero d _ En).
Qed.

(** [str(n)] has at most [w] characters exactly when [n < 10 ** w]. *)
Lemma digits_length_le n (w : nat) :
  (0 < w)%nat →
  (String.length (Py.digits n) ≤ w)%nat ↔ n < 10 ^ N.of_nat w.
Proof.
  intros Hw. unfold Py.digits. destruct n as [|p].
  - simpl. split; intros _; [|lia]. apply N.neq_0_lt_0, N.pow_nonzero. lia.
  - simpl N.to_uint.
    pose proof (DecimalPos.Unsigned.to_uint_nonnil p) as Hnil.
    pose proof (to_uint_head p) as Hhd.
    pose proof (DecimalPos.Unsigned.of_to p) as Hval.
    fold (N.of_uint (Pos.to_uint p)) in Hval.
    assert (NilZero.string_of_uint (Pos.to_uint p)
            = NilEmpty.string_of_uint (Pos.to_uint p)) as ->
      by (destruct (Pos.to_uint p); [congruence|reflexivity..]).
    pose proof (usize_length (Pos.to_uint p)) as Hlen.
    pose proof (of_uint_lt (Pos.to_uint p)) as Hlt.
    pose proof (of_uint_ge (Pos.to_uint p) Hhd) as Hge.
    rewrite (usize_cons _ Hnil) in Hlen, Hlt.
    rewrite Hval in *.
    set (u := DecimalPos.Unsigned.usize
                (DecimalPos.Unsigned.tl (Pos.to_uint p))) in *.
    set (L := String.length _) in *.
    split.
    + intros HL. eapply N.lt_le_trans; [exact Hlt|].
      apply N.pow_le_mono_r; lia.
    + intros Hn.
      assert (10 ^ u < 10 ^ N.of_nat w) as Hp
        by (eapply N.le_lt_trans; eauto).
      apply N.pow_lt_mono_r_iff in Hp; lia.
Qed.

End DigitFacts.

Section WidthProperties.

(** A non-negative number fills the field of [{:0wd}] exactly when it is
    below [10 ** w]; a larger one is printed longer, never cut. *)
Lemma format_0d_width (w : nat) n :
  (0 < w)%nat → 0 ≤ n →
  (String.length (Py.format_0d w n) = w ↔ n < 10 ^ Z.of_nat w)
  ∧ (w ≤ String.length (Py.format_0d w n))%nat.
Proof.
  intros Hw Hn. rewrite format_0d_length by done.
  pose proof (digits_length_le (Z.to_N n) w Hw) as Hd.
  assert ((Z.to_N n < 10 ^ N.of_nat w)%N ↔ n < 10 ^ Z.of_nat w) as Hz.
  { rewrite N2Z.inj_lt, N2Z.inj_pow, Z2N.id, nat_N_Z by done. done. }
  split; [|lia]. rewrite <- Hz, <- Hd. lia.
Qed.

(** X9: for a shard index that is not negative, the archive name
    shard-ddddd.tar has its fifteen characters exactly when the index is
    below 100000, and the key sampledddddd its twelve exactly when the
    position is below 1000000; beyond, the number is printed in full and
    the name gets longer. *)
Theorem name_widths idx (j : nat) :
  0 ≤ idx →
  (String.length (shard_name idx) = 15%nat ↔ idx < 100000)
  ∧ (15 ≤ String.length (shard_name idx))%nat
  ∧ (String.length (sample_key j) = 12%nat ↔ Z.of_nat j < 1000000)
  ∧ (12 ≤ String.length (sample_key j))%nat.
Proof.
  intros Hidx.
  destruct (format_0d_width 5 idx ltac:(lia) Hidx) as [H5 H5'].
  destruct (format_0d_width 6 (Z.of_nat j) ltac:(lia) ltac:(lia)) as [H6 H6'].
  unfold shard_name, sample_key.
  rewrite !string_length_app.
  change (String.length "shard-") with 6%nat.
  change (String.length ".tar") with 4%nat.
  change (String.length "sample") with 6%nat.
  change (10 ^ Z.of_nat 5) with 100000 in H5.
  change (10 ^ Z.of_nat 6) with 1000000 in H6.
  lia.
Qed.

End WidthProperties.

Lemma name_widths_witness :
  String.length (shard_name 100000) ≠ 15%nat
  ∧ String.length (sample_key (Z.to_nat 999999)) = 12%nat.
Proof.
  destruct (name_widths 100000 (Z.to_nat 999999) ltac:(lia))
    as (H1 & _ & H2 & _).
  split.
  - intros H. apply H1 in H. lia.
  - apply H2. lia.
Defined.

(** * The further properties on the small dataset *)


Lemma later_start_index_appends_witness :
  let w1 := after small_sched empty_world in
  let sched2 := save_shard (C := stored) "out" 6 [good_sample; inf_sample] in
  let w2 := exec sched2 (step (Print (total_message 2)) w1) in
  files w2 !! shard_path "out" (3 + 0)
  = Some (shard_records (slice small_dataset (0 * 2) (Z.min 2 (5 - 0 * 2)))).
Proof.
  intros w1 sched2 w2.
  refine (proj1
    (later_start_index_appends (C := stored) small_dataset
       [good_sample; inf_sample] "out" 2 2 8 1 3 6 small_sched sched2
       empty_world w1 w2 _ _ _ _ _) 0 _).
  - lia.
  - lia.
  - run_by_evaluation.
  - run_by_evaluation.
  - assert (ceil_div (Z.of_nat (length small_dataset)) 2 = 3) as ->
      by reflexivity.
    lia.
  - split; [lia|reflexivity].
Defined.

Lemma rerun_changes_nothing_witness :
  files (after small_sched_rev (after small_sched empty_world))
  = files (after small_sched empty_world).
Proof.
  refine (rerun_changes_nothing (C := stored) small_dataset "out" 2 8 2 3
            small_sched small_sched_rev empty_world
            (after small_sched empty_world)
            (after small_sched_rev (after small_sched empty_world)) _ _ _).
  - lia.
  - run_by_evaluation.
  - run_by_evaluation.
Defined.

Lemma shards_hold_valid_samples_in_order_witness :
  concat ((λ sl, (kept sl).*2)
            <$> ((λ i, slice small_dataset (i * 2)
                         (Z.min 2 (Z.of_nat (length small_dataset) - i * 2)))
                   <$> Py.range (ceil_div (Z.of_nat (length small_dataset)) 2)))
  = filter (λ x, valid x = true) small_dataset.
Proof.
  refine (proj2 (proj2
    (shards_hold_valid_samples_in_order (C := stored) small_dataset "out" 2
       8 3 small_sched empty_world (after small_sched empty_world) _ _))).
  - lia.
  - run_by_evaluation.
Defined.

Lemma record_location_witness :
  ∃ rs,
    files (after small_sched_rev empty_world)
      !! shard_path "out" (3 + Z.of_nat 3 `div` 2) = Some rs
    ∧ record_of (C := stored)
        (sample_key (Z.to_nat (Z.of_nat 3 `mod` 2))) good_sample ∈ rs.
Proof.
  refine (proj1
    (record_location (C := stored) small_dataset "out" 2 8 3
       small_sched_rev empty_world (after small_sched_rev empty_world) _ _)
    3%nat good_sample _ _).
  - lia.
  - run_by_evaluation.
  - reflexivity.
  - reflexivity.
Defined.

Lemma shard_record_bounds_witness :
  ∃ rs,
    files (after small_sched empty_world) !! shard_path "out" (3 + 0)
    = Some rs
    ∧ Z.of_nat (length rs) ≤ 2.
Proof.
  destruct (shard_record_bounds (C := stored) small_dataset "out" 2 8 3
              small_sched empty_world (after small_sched empty_world) 0)
    as (rs & Hrs & Hle & _).
  - lia.
  - run_by_evaluation.
  - split; [lia|reflexivity].
  - exists rs. split; [exact Hrs|lia].
Defined.

Section OutputProperties.

Context {C : Codec}.



(** X12: a dataset that is not empty and has no more samples than the
    shard size goes into one archive, the one of the start index, which
    holds the records of all its valid samples. *)
Theorem single_shard_when_size_covers ds out s np start sched w w' :
  (1 ≤ length ds)%nat →
  Z.of_nat (length ds) ≤ s →
  create_webdataset_run ds out s np start sched w w' →
  opened sched = [shard_path out start]
  ∧ files w' !! shard_path out start = Some (shard_records ds).
Proof.
  intros Hn Hs Hrun.
  assert (0 < s) as Hs0 by lia.
  assert (ceil_div (Z.of_nat (length ds)) s = 1) as Hk.
  { pose proof (ceil_div_bounds (Z.of_nat (length ds)) s Hs0). nia. }
  split.
  - pose proof (run_opened _ _ _ _ _ _ _ _ Hs0 Hrun) as Hop.
    rewrite Hk in Hop. apply Permutation_singleton_r in Hop.
    rewrite Hop. simpl. by rewrite Z.add_0_r.
  - pose proof (run_files_planned _ _ _ _ _ _ _ _ 0 Hs0 Hrun) as Hf.
    rewrite Z.add_0_r in Hf. rewrite Hf by lia. f_equal. f_equal.
    unfold slice. simpl. rewrite drop_0. apply take_ge. lia.
Qed.

End OutputProperties.


Lemma single_shard_when_size_covers_witness :
  files (exec (save_shard (C := stored) "out" 0 small_dataset)
           (step (Print (total_message 5)) empty_world))
    !! shard_path "out" 0
  = Some (shard_records small_dataset).
Proof.
  refine (proj2
    (single_shard_when_size_covers (C := stored) small_dataset "out" 1000 8 0
       (save_shard "out" 0 small_dataset) empty_world _ _ _ _)).
  - simpl. lia.
  - simpl. lia.
  - run_by_evaluation.
Defined.
